(** * ircbot: the channel database of a single-server IRC bot

    A shallow embedding of [ircbot.py]: the case-folding dictionary
    [IRCDict], the per-channel record [Channel] and the event handlers of
    [SingleServerIRCBot], followed by the properties of the specification
    that concern them.

    Python objects are embedded as follows.
    - [bytes] are [string]s (a [string] is a list of 8-bit characters).
    - A [dict] whose iteration order can be observed ([IRCDict.data]) is an
      insertion-ordered association list, see [PyDict].  A [dict] that is
      only ever indexed ([IRCDict.canon_keys], [Channel.modes]) is a [gmap].
    - A method that mutates its receiver returns the new receiver.
    - A method that can raise returns a [result]; a raised exception aborts
      the caller, and the partially updated receiver is not observed. *)

From Stdlib Require Import ZArith Ascii String.
From stdpp Require Import gmap strings list fin_maps.

Local Open Scope string_scope.
Local Open Scope Z_scope.

(** ** Exceptions *)

Inductive exn : Set :=
| KeyError
| IndexError
| AttributeError.

Inductive result (A : Type) : Type :=
| Ok (a : A)
| Raise (e : exn).
Arguments Ok {A} a.
Arguments Raise {A} e.

#[global] Instance result_ret : MRet result := fun A a => Ok a.
#[global] Instance result_bind : MBind result := fun A B f m =>
  match m with
  | Ok a => f a
  | Raise e => Raise e
  end.

(** [d[k]] on a builtin dict or list: the value, or the exception [e]. *)
Definition subscript {A : Type} (e : exn) (o : option A) : result A :=
  match o with
  | Some a => Ok a
  | None => Raise e
  end.

(** ** Helpers imported from [irclib] *)

(** Modelled from the spec: [irclib.irc_lower] is imported by [ircbot.py]
    but its definition is not part of the sources at hand.  The
    specification describes it as the RFC 1459 casemapping: ASCII letters
    are lowercased and the characters [[], []], [\] and [^] fold to [{],
    [}], [|] and [~]; every other byte is kept. *)
Definition irc_lower_byte (c : ascii) : ascii :=
  let n := N_of_ascii c in
  if bool_decide (65 ≤ n ∧ n ≤ 90)%N then ascii_of_N (n + 32)
  else if bool_decide (n = 91)%N then "{"%char
  else if bool_decide (n = 92)%N then "|"%char
  else if bool_decide (n = 93)%N then "}"%char
  else if bool_decide (n = 94)%N then "~"%char
  else c.

Fixpoint irc_lower (s : string) : string :=
  match s with
  | EmptyString => EmptyString
  | String c r => String (irc_lower_byte c) (irc_lower r)
  end.

(** Modelled from the spec: [irclib.nm_to_n] is imported by [ircbot.py]
    but not defined in it.  The specification says that of a source of the
    form nick!user@host only the nick portion is used: the text before the
    first exclamation mark. *)
Fixpoint nm_to_n (s : string) : string :=
  match s with
  | EmptyString => EmptyString
  | String c r => if bool_decide (c = "!"%char) then EmptyString
                  else String c (nm_to_n r)
  end.

(** ** Builtin operations *)

(** ASCII whitespace, as [bytes.split()] without argument understands it. *)
Definition is_space (c : ascii) : bool :=
  let n := N_of_ascii c in
  bool_decide (n = 32 ∨ (9 ≤ n ∧ n ≤ 13))%N.

(** [split_aux cur s] scans [s] with the token [cur] read so far. *)
Fixpoint split_aux (cur : option string) (s : string) : list string :=
  match s with
  | EmptyString =>
      match cur with
      | Some w => [w]
      | None => []
      end
  | String c r =>
      if is_space c then
        match cur with
        | Some w => w :: split_aux None r
        | None => split_aux None r
        end
      else
        split_aux (Some (match cur with
                         | Some w => w ++ String c EmptyString
                         | None => String c EmptyString
                         end)%string) r
  end.

(** [s.split()]: the maximal runs of non-whitespace bytes, in order. *)
Definition split (s : string) : list string := split_aux None s.

(** [sep.join(l)] *)
Fixpoint join (sep : string) (l : list string) : string :=
  match l with
  | [] => ""
  | [x] => x
  | x :: r => x ++ sep ++ join sep r
  end.

(** An insertion-ordered builtin [dict] with [bytes] keys. *)
Module PyDict.
Section ordered.
Context {V : Type}.

(** [d.get(key)]: the value stored under [key], if there is one. *)
Fixpoint get (d : list (string * V)) (key : string) : option V :=
  match d with
  | [] => None
  | (k, v) :: r => if decide (k = key) then Some v else get r key
  end.

(** [key in d] *)
Definition contains (d : list (string * V)) (key : string) : bool :=
  match get d key with
  | Some _ => true
  | None => false
  end.

(** [d[key] = item]: a stored key keeps its position, a new one goes last. *)
Fixpoint set (d : list (string * V)) (key : string) (item : V)
  : list (string * V) :=
  match d with
  | [] => [(key, item)]
  | (k, v) :: r =>
      if decide (k = key) then (k, item) :: r else (k, v) :: set r key item
  end.

(** [del d[key]]: [None] stands for the [KeyError] of an absent key. *)
Definition del (d : list (string * V)) (key : string)
  : option (list (string * V)) :=
  if contains d key
  then Some (filter (fun p => p.1 ≠ key) d)
  else None.

Definition keys (d : list (string * V)) : list string := d.*1.
Definition values (d : list (string * V)) : list V := d.*2.
End ordered.
End PyDict.

(** ** class IRCDict *)

Module IRCDict.
Section methods.
Context {V : Type}.

Record t : Type := mk {
  data : list (string * V);
  canon_keys : gmap string string
}.

(** [for k, v in ircdict.items(): self.data[k] = v] *)
Definition update (self : t) (ircdict : list (string * V)) : t :=
  {| data := fold_left (fun d kv => PyDict.set d kv.1 kv.2) ircdict (data self);
     canon_keys := canon_keys self |}.

Definition __init__ (ircdict : option (list (string * V))) : t :=
  let self := {| data := []; canon_keys := ∅ |} in
  match ircdict with
  | Some src => update self src
  | None => self
  end.

Definition __len__ (self : t) : nat := List.length (data self).

Definition __getitem__ (self : t) (key : string) : result V :=
  ck ← subscript KeyError (canon_keys self !! irc_lower key);
  subscript KeyError (PyDict.get (data self) ck).

(** Both subscriptions are evaluated before anything is deleted, so a
    [KeyError] leaves the dictionary as it was. *)
Definition __delitem__ (self : t) (key : string) : result t :=
  let ck := irc_lower key in
  k ← subscript KeyError (canon_keys self !! ck);
  d ← subscript KeyError (PyDict.del (data self) k);
  Ok {| data := d; canon_keys := delete ck (canon_keys self) |}.

Definition __contains__ (self : t) (key : string) : bool :=
  PyDict.contains (data self) key.

Definition __setitem__ (self : t) (key : string) (item : V) : result t :=
  self ← (if __contains__ self key then __delitem__ self key else Ok self);
  Ok {| data := PyDict.set (data self) key item;
        canon_keys := <[irc_lower key := key]> (canon_keys self) |}.

Definition __iter__ (self : t) : list string := PyDict.keys (data self).
Definition keys (self : t) : list string := PyDict.keys (data self).
Definition items (self : t) : list (string * V) := data self.
Definition values (self : t) : list V := PyDict.values (data self).

Definition clear (self : t) : t := {| data := []; canon_keys := ∅ |}.

Definition has_key (self : t) (key : string) : bool :=
  bool_decide (is_Some (canon_keys self !! irc_lower key)).

Definition get (self : t) (key : string) (failobj : option V) : option V :=
  match PyDict.get (data self) key with
  | Some v => Some v
  | None => failobj
  end.

(** [self[key].method(...)]: the object that [__getitem__] returns is
    mutated in place by [method], so the dictionary afterwards holds the
    mutated object under the same stored key.  No object is stored under
    two keys: every value put into a dictionary here is freshly built. *)
Definition on_item (self : t) (key : string) (method : V → result V)
  : result t :=
  ck ← subscript KeyError (canon_keys self !! irc_lower key);
  obj ← subscript KeyError (PyDict.get (data self) ck);
  obj ← method obj;
  Ok {| data := PyDict.set (data self) ck obj;
        canon_keys := canon_keys self |}.
End methods.
Arguments t V : clear implicits.
End IRCDict.

(** ** class Channel *)

Module Channel.
Record t : Type := mk {
  userdict : IRCDict.t Z;
  operdict : IRCDict.t Z;
  voiceddict : IRCDict.t Z;
  modes : gmap string (option string)
}.

Definition __init__ : t :=
  {| userdict := IRCDict.__init__ None;
     operdict := IRCDict.__init__ None;
     voiceddict := IRCDict.__init__ None;
     modes := ∅ |}.

Definition users (self : t) : list string := IRCDict.keys (userdict self).
Definition opers (self : t) : list string := IRCDict.keys (operdict self).
Definition voiced (self : t) : list string := IRCDict.keys (voiceddict self).

Definition has_user (self : t) (nick : string) : bool :=
  IRCDict.__contains__ (userdict self) nick.
Definition is_oper (self : t) (nick : string) : bool :=
  IRCDict.__contains__ (operdict self) nick.
Definition is_voiced (self : t) (nick : string) : bool :=
  IRCDict.__contains__ (voiceddict self) nick.

Definition add_user (self : t) (nick : string) : result t :=
  d ← IRCDict.__setitem__ (userdict self) nick 1;
  Ok {| userdict := d; operdict := operdict self;
        voiceddict := voiceddict self; modes := modes self |}.

(** The body of the loop of [remove_user], for one dictionary [d]. *)
Definition discard (d : IRCDict.t Z) (nick : string) : result (IRCDict.t Z) :=
  if IRCDict.__contains__ d nick then IRCDict.__delitem__ d nick else Ok d.

Definition remove_user (self : t) (nick : string) : result t :=
  u ← discard (userdict self) nick;
  o ← discard (operdict self) nick;
  v ← discard (voiceddict self) nick;
  Ok {| userdict := u; operdict := o; voiceddict := v; modes := modes self |}.

(** [d[after] = 1; del d[before]] *)
Definition rekey (d : IRCDict.t Z) (before after : string)
  : result (IRCDict.t Z) :=
  d ← IRCDict.__setitem__ d after 1;
  IRCDict.__delitem__ d before.

Definition change_nick (self : t) (before after : string) : result t :=
  u ← rekey (userdict self) before after;
  o ← (if IRCDict.__contains__ (operdict self) before
       then rekey (operdict self) before after
       else Ok (operdict self));
  v ← (if IRCDict.__contains__ (voiceddict self) before
       then rekey (voiceddict self) before after
       else Ok (voiceddict self));
  Ok {| userdict := u; operdict := o; voiceddict := v; modes := modes self |}.

(** The argument of a mode is [None] or [bytes].  For the modes o and v
    it becomes a key of an [IRCDict], whose methods hand it to [irc_lower],
    a function on identifiers: [None] is rejected there by an exception
    that is not a [KeyError]. *)
Definition identifier (value : option string) : result string :=
  subscript AttributeError value.

Definition set_mode (self : t) (mode : string) (value : option string)
  : result t :=
  if decide (mode = "o") then
    nick ← identifier value;
    d ← IRCDict.__setitem__ (operdict self) nick 1;
    Ok {| userdict := userdict self; operdict := d;
          voiceddict := voiceddict self; modes := modes self |}
  else if decide (mode = "v") then
    nick ← identifier value;
    d ← IRCDict.__setitem__ (voiceddict self) nick 1;
    Ok {| userdict := userdict self; operdict := operdict self;
          voiceddict := d; modes := modes self |}
  else
    Ok {| userdict := userdict self; operdict := operdict self;
          voiceddict := voiceddict self;
          modes := <[mode := value]> (modes self) |}.

(** The [try] block of [clear_mode]. *)
Definition clear_mode_try (self : t) (mode : string) (value : option string)
  : result t :=
  if decide (mode = "o") then
    nick ← identifier value;
    d ← IRCDict.__delitem__ (operdict self) nick;
    Ok {| userdict := userdict self; operdict := d;
          voiceddict := voiceddict self; modes := modes self |}
  else if decide (mode = "v") then
    nick ← identifier value;
    d ← IRCDict.__delitem__ (voiceddict self) nick;
    Ok {| userdict := userdict self; operdict := operdict self;
          voiceddict := d; modes := modes self |}
  else
    _ ← subscript KeyError (modes self !! mode);
    Ok {| userdict := userdict self; operdict := operdict self;
          voiceddict := voiceddict self;
          modes := delete mode (modes self) |}.

(** [except KeyError: pass].  Each deletion of the [try] block raises
    before it changes anything, so the receiver is then as it was. *)
Definition clear_mode (self : t) (mode : string) (value : option string)
  : result t :=
  match clear_mode_try self mode value with
  | Raise KeyError => Ok self
  | r => r
  end.

Definition has_mode (self : t) (mode : string) : bool :=
  bool_decide (is_Some (modes self !! mode)).

Definition is_moderated (self : t) : bool := has_mode self "m".
Definition is_secret (self : t) : bool := has_mode self "s".
Definition is_protected (self : t) : bool := has_mode self "p".
Definition has_topic_lock (self : t) : bool := has_mode self "t".
Definition is_invite_only (self : t) : bool := has_mode self "i".
Definition has_allow_external_messages (self : t) : bool := has_mode self "n".
Definition has_limit (self : t) : bool := has_mode self "l".

Definition limit (self : t) : option string :=
  if has_limit self then default None (modes self !! "l") else None.

Definition has_key (self : t) : bool := has_mode self "k".

Definition key (self : t) : option string :=
  if has_key self then default None (modes self !! "k") else None.
End Channel.

(** ** The collaborators of the bot *)

(** Modelled from the spec: the connection object and the events come from
    [irclib], which is not part of the sources at hand.  Section 6 of the
    specification lists what the bot consumes: [connect], [disconnect],
    [scheduleDelayed], [registerHandler], [isConnected] and
    [currentNickname], and events with a source, a target and a sequence
    of arguments.  The model keeps what the bot can observe (connected or
    not, the current nickname) and logs the calls the bot makes. *)
Inductive call : Type :=
| AddGlobalHandler (event : string) (priority : Z)
| Connect (server : string) (port : Z) (nickname : string)
          (password : option string) (username ircname : string) (ssl : bool)
| Disconnect (message : string)
| ExecuteDelayed (delay : Z).

Record Connection : Type := {
  connected : bool;
  real_nickname : string;
  calls : list call
}.

Definition is_connected (c : Connection) : bool := connected c.
Definition get_nickname (c : Connection) : string := real_nickname c.

Definition invoke (c : Connection) (x : call) : Connection :=
  {| connected := connected c; real_nickname := real_nickname c;
     calls := calls c ++ [x] |}.

Definition with_connected (c : Connection) (b : bool) : Connection :=
  {| connected := b; real_nickname := real_nickname c; calls := calls c |}.

Record Event : Type := {
  source : string;
  target : string;
  arguments : list string
}.

(** A server of [server_list]: the tuple (server, port) or
    (server, port, password); the two-element tuple has no password. *)
Record Server : Type := {
  server : string;
  port : Z;
  password : option string
}.

(** [for x in l: s = body(s, x)], stopping at the first exception. *)
Fixpoint for_each {S A : Type} (body : S → A → result S) (l : list A) (s : S)
  : result S :=
  match l with
  | [] => Ok s
  | x :: r => s ← body s x; for_each body r s
  end.

(** ** class SingleServerIRCBot *)

Module SingleServerIRCBot.
Record t : Type := mk {
  channels : IRCDict.t Channel.t;
  server_list : list Server;
  reconnection_interval : Z;
  use_ssl : bool;
  _nickname : string;
  _username : string;
  _realname : string;
  connection : Connection
}.

Definition with_channels (self : t) (chans : IRCDict.t Channel.t) : t :=
  {| channels := chans; server_list := server_list self;
     reconnection_interval := reconnection_interval self;
     use_ssl := use_ssl self; _nickname := _nickname self;
     _username := _username self; _realname := _realname self;
     connection := connection self |}.

Definition with_connection (self : t) (c : Connection) : t :=
  {| channels := channels self; server_list := server_list self;
     reconnection_interval := reconnection_interval self;
     use_ssl := use_ssl self; _nickname := _nickname self;
     _username := _username self; _realname := _realname self;
     connection := c |}.

Definition with_server_list (self : t) (l : list Server) : t :=
  {| channels := channels self; server_list := l;
     reconnection_interval := reconnection_interval self;
     use_ssl := use_ssl self; _nickname := _nickname self;
     _username := _username self; _realname := _realname self;
     connection := connection self |}.

(** [x or y] for [x] that is [None] or [bytes]. *)
Definition or_else (x : option string) (y : string) : string :=
  match x with
  | Some s => if decide (s = "") then y else s
  | None => y
  end.

(** The default of a parameter that the caller leaves out. *)
Definition default_reconnection_interval : option Z := Some 60.

(** [reconnection_interval] is [None] or an integer.
    [conn] is the connection that [SimpleIRCClient.__init__] creates. *)
Definition __init__ (conn : Connection) (server_list : list Server)
    (nickname : string) (username realname : option string)
    (reconnection_interval : option Z) (use_ssl : bool) : t :=
  let reconnection_interval :=
    match reconnection_interval with
    | None => 2 ^ 31
    | Some i => if bool_decide (i = 0) || bool_decide (i < 0) then 2 ^ 31 else i
    end in
  {| channels := IRCDict.__init__ None;
     server_list := server_list;
     reconnection_interval := reconnection_interval;
     use_ssl := use_ssl;
     _nickname := nickname;
     _username := or_else username nickname;
     _realname := or_else realname nickname;
     connection :=
       fold_left (fun c i => invoke c (AddGlobalHandler i (-10)))
         ["disconnect"; "join"; "kick"; "mode";
          "namreply"; "nick"; "part"; "quit"] conn |}.

(** [reachable] tells whether the server accepts the connection; if not,
    [connect] raises [ServerConnectionError], which is passed over. *)
Definition _connect (self : t) (reachable : bool) : result t :=
  s ← subscript IndexError (head (server_list self));
  let c := invoke (connection self)
             (Connect (server s) (port s) (_nickname self) (password s)
                      (_username self) (_realname self) (use_ssl self)) in
  Ok (with_connection self (with_connected c reachable)).

Definition _on_disconnect (self : t) (c : Connection) (e : Event) : t :=
  let self := with_channels self (IRCDict.__init__ None) in
  with_connection self
    (invoke (connection self) (ExecuteDelayed (reconnection_interval self))).

Definition _on_join (self : t) (c : Connection) (e : Event) : result t :=
  let ch := target e in
  let nick := nm_to_n (source e) in
  chans ← (if decide (nick = get_nickname c)
           then IRCDict.__setitem__ (channels self) ch Channel.__init__
           else Ok (channels self));
  chans ← IRCDict.on_item chans ch (fun chan => Channel.add_user chan nick);
  Ok (with_channels self chans).

Definition _on_kick (self : t) (c : Connection) (e : Event) : result t :=
  nick ← subscript IndexError (arguments e !! 0%nat);
  let channel := target e in
  chans ← (if decide (nick = get_nickname c)
           then IRCDict.__delitem__ (channels self) channel
           else IRCDict.on_item (channels self) channel
                  (fun chan => Channel.remove_user chan nick));
  Ok (with_channels self chans).

(** The body of the loop of [_on_mode], for one triple [mode] of a sign,
    a letter and an argument. *)
Definition mode_change (ch : Channel.t) (mode : string * string * option string)
  : result Channel.t :=
  let f := if decide (mode.1.1 = "+") then Channel.set_mode
           else Channel.clear_mode in
  f ch mode.1.2 mode.2.

(** [parse_channel_modes] and [is_channel] are imported from [irclib]; the
    handler is modelled for any two such functions.  The channel is looked
    up once, before the loop, and the loop mutates that object. *)
Definition _on_mode
    (parse_channel_modes : string → list (string * string * option string))
    (is_channel : string → bool)
    (self : t) (c : Connection) (e : Event) : result t :=
  let modes := parse_channel_modes (join " " (arguments e)) in
  let t := target e in
  if is_channel t then
    chans ← IRCDict.on_item (channels self) t
              (fun ch => for_each mode_change modes ch);
    Ok (with_channels self chans)
  else Ok self.

(** The body of the loop of [_on_namreply], for one token [nick]. *)
Definition namreply_nick (ch : string) (chans : IRCDict.t Channel.t)
    (nick : string) : result (IRCDict.t Channel.t) :=
  '(nick, chans) ←
    match nick with
    | String "@" rest =>
        chans ← IRCDict.on_item chans ch
                  (fun chan => Channel.set_mode chan "o" (Some rest));
        Ok (rest, chans)
    | String "+" rest =>
        chans ← IRCDict.on_item chans ch
                  (fun chan => Channel.set_mode chan "v" (Some rest));
        Ok (rest, chans)
    | _ => Ok (nick, chans)
    end;
  IRCDict.on_item chans ch (fun chan => Channel.add_user chan nick).

Definition _on_namreply (self : t) (c : Connection) (e : Event) : result t :=
  ch ← subscript IndexError (arguments e !! 1%nat);
  names ← subscript IndexError (arguments e !! 2%nat);
  chans ← for_each (namreply_nick ch) (split names) (channels self);
  Ok (with_channels self chans).

(** [for ch in self.channels.values(): ...]: every stored channel is
    visited in order and mutated in place. *)
Definition on_values (chans : IRCDict.t Channel.t)
    (body : Channel.t → result Channel.t) : result (IRCDict.t Channel.t) :=
  d ← for_each (fun (acc : list (string * Channel.t)) kv =>
                  chan ← body kv.2; Ok (acc ++ [(kv.1, chan)])%list)
        (IRCDict.data chans) [];
  Ok {| IRCDict.data := d; IRCDict.canon_keys := IRCDict.canon_keys chans |}.

Definition _on_nick (self : t) (c : Connection) (e : Event) : result t :=
  let before := nm_to_n (source e) in
  let after := target e in
  chans ← on_values (channels self) (fun ch =>
             if Channel.has_user ch before
             then Channel.change_nick ch before after
             else Ok ch);
  Ok (with_channels self chans).

Definition _on_part (self : t) (c : Connection) (e : Event) : result t :=
  let nick := nm_to_n (source e) in
  let channel := target e in
  chans ← (if decide (nick = get_nickname c)
           then IRCDict.__delitem__ (channels self) channel
           else IRCDict.on_item (channels self) channel
                  (fun chan => Channel.remove_user chan nick));
  Ok (with_channels self chans).

Definition _on_quit (self : t) (c : Connection) (e : Event) : result t :=
  let nick := nm_to_n (source e) in
  chans ← on_values (channels self) (fun ch =>
             if Channel.has_user ch nick
             then Channel.remove_user ch nick
             else Ok ch);
  Ok (with_channels self chans).

Definition disconnect (self : t) (msg : string) : t :=
  with_connection self
    (with_connected (invoke (connection self) (Disconnect msg)) false).

Definition get_version (self : t) : string :=
  "ircbot.py by Joel Rosdahl <joel@rosdahl.net>".

Definition jump_server (self : t) (msg : string) (reachable : bool)
  : result t :=
  let self := if is_connected (connection self)
              then disconnect self msg
              else self in
  self ← match server_list self with
         | [] => Raise IndexError
         | s :: l => Ok (with_server_list self (l ++ [s]))
         end;
  _connect self reachable.

Definition _connected_checker (self : t) (reachable : bool) : result t :=
  if is_connected (connection self) then Ok self
  else
    let self := with_connection self
                  (invoke (connection self)
                     (ExecuteDelayed (reconnection_interval self))) in
    jump_server self "Changing servers" reachable.
End SingleServerIRCBot.

(** ** Invariants and vocabulary of the properties *)

Module Inv.
Section dict.
Context {V : Type}.

(** Every canonical key leads to a stored key of its own class. *)
Definition sound (d : IRCDict.t V) : bool :=
  bool_decide (map_Forall
    (fun ck k => irc_lower k = ck ∧ PyDict.contains (IRCDict.data d) k = true)
    (IRCDict.canon_keys d)).

(** Every stored key is the canonical key of its class. *)
Definition complete (d : IRCDict.t V) : bool :=
  forallb (fun k => bool_decide (IRCDict.canon_keys d !! irc_lower k = Some k))
    (IRCDict.keys d).

(** The two dictionaries of an [IRCDict] describe each other.  In
    particular no two stored keys are equivalent. *)
Definition wf (d : IRCDict.t V) : bool := sound d && complete d.

(** No stored key is equivalent to [nick]. *)
Definition absent (d : IRCDict.t V) (nick : string) : bool :=
  forallb (fun k => bool_decide (irc_lower k ≠ irc_lower nick))
    (IRCDict.keys d).
End dict.

(** Every element of [xs] has an equivalent element in [ys]. *)
Definition subset_upto (xs ys : list string) : Prop :=
  ∀ x, x ∈ xs → ∃ y, y ∈ ys ∧ irc_lower y = irc_lower x.

Definition channel_wf (ch : Channel.t) : bool :=
  wf (Channel.userdict ch) && wf (Channel.operdict ch)
  && wf (Channel.voiceddict ch).

(** Operators and voiced nicks are members, under the stored spelling. *)
Definition status_in_members (ch : Channel.t) : bool :=
  forallb (Channel.has_user ch) (Channel.opers ch)
  && forallb (Channel.has_user ch) (Channel.voiced ch).

Definition channel_inv (ch : Channel.t) : bool :=
  channel_wf ch && status_in_members ch.

(** The mode [mode] with argument [value] is not set on [ch]. *)
Definition mode_unset (ch : Channel.t) (mode : string) (value : option string)
  : bool :=
  if decide (mode = "o") then
    match value with
    | Some nick => absent (Channel.operdict ch) nick
    | None => false
    end
  else if decide (mode = "v") then
    match value with
    | Some nick => absent (Channel.voiceddict ch) nick
    | None => false
    end
  else negb (Channel.has_mode ch mode).

(** The calls of the membership invariant. *)
Inductive mutation : Type :=
| SetOper (n : string)
| SetVoiced (n : string)
| RemoveUser (n : string).

Definition apply (ch : Channel.t) (m : mutation) : result Channel.t :=
  match m with
  | SetOper n => Channel.set_mode ch "o" (Some n)
  | SetVoiced n => Channel.set_mode ch "v" (Some n)
  | RemoveUser n => Channel.remove_user ch n
  end.

Definition run (ch : Channel.t) (ms : list mutation) : result Channel.t :=
  for_each apply ms ch.

(** A status is only given to a nick that is a member at that moment. *)
Definition permitted (ch : Channel.t) (m : mutation) : bool :=
  match m with
  | SetOper n | SetVoiced n => Channel.has_user ch n
  | RemoveUser _ => true
  end.

(** Every call of [ms] is permitted in the state it is made in. *)
Fixpoint guarded (ch : Channel.t) (ms : list mutation) : bool :=
  match ms with
  | [] => true
  | m :: r =>
      permitted ch m
      && match apply ch m with
         | Ok ch => guarded ch r
         | Raise _ => true
         end
  end.
End Inv.

(** ** States to evaluate the code on *)

Module Sample.
(** The outcome of calls that are known not to raise. *)
Definition value {A : Type} (fallback : A) (r : result A) : A :=
  match r with
  | Ok a => a
  | Raise _ => fallback
  end.

(** A channel with the one member alice, who is an operator. *)
Definition alice_oper : Channel.t :=
  value Channel.__init__
    (ch ← Channel.add_user Channel.__init__ "alice";
     Channel.set_mode ch "o" (Some "alice")).

(** A connection on which the bot is registered under the nickname bot. *)
Definition conn : Connection :=
  {| connected := true; real_nickname := "bot"; calls := [] |}.

Definition servers : list Server :=
  [ {| server := "irc.example.org"; port := 6667; password := None |};
    {| server := "irc.example.net"; port := 6697; password := Some "secret" |};
    {| server := "irc.example.com"; port := 6667; password := None |} ].

Definition bot : SingleServerIRCBot.t :=
  SingleServerIRCBot.__init__ conn servers "bot" None None
    SingleServerIRCBot.default_reconnection_interval false.

Definition event (source target : string) (arguments : list string) : Event :=
  {| source := source; target := target; arguments := arguments |}.

(** The bot after it has joined #test. *)
Definition in_test : SingleServerIRCBot.t :=
  value bot (SingleServerIRCBot._on_join bot conn (event "bot!u@h" "#test" [])).
End Sample.

(** ** Vocabulary of the further properties *)

Module Scenario.
(** The nick that a token of a NAMES reply stands for. *)
Definition nick_of (token : string) : string :=
  match token with
  | String "@" rest => rest
  | String "+" rest => rest
  | _ => token
  end.

(** The mode that a token of a NAMES reply gives to its nick. *)
Definition status_of (token : string) : option string :=
  match token with
  | String "@" _ => Some "o"
  | String "+" _ => Some "v"
  | _ => None
  end.

(** The nicks that the tokens give the mode [mode] to. *)
Definition given (mode : string) (tokens : list string) : list string :=
  nick_of <$> filter (fun token => status_of token = Some mode) tokens.

(** What the loop of [_on_namreply] does to the channel for one token. *)
Definition name_token (chan : Channel.t) (token : string) : result Channel.t :=
  chan ← match status_of token with
         | Some mode => Channel.set_mode chan mode (Some (nick_of token))
         | None => Ok chan
         end;
  Channel.add_user chan (nick_of token).

(** Every stored key that is equivalent to [nick] is [nick] itself. *)
Definition fits {V : Type} (d : IRCDict.t V) (nick : string) : bool :=
  forallb (fun k => bool_decide (irc_lower k = irc_lower nick → k = nick))
    (IRCDict.keys d).

(** The nicks of [tokens] fit the members of [ch], and two of them that
    are equivalent are equal. *)
Fixpoint names_fit (ch : Channel.t) (tokens : list string) : bool :=
  match tokens with
  | [] => true
  | token :: r =>
      fits (Channel.userdict ch) (nick_of token)
      && forallb (fun token' =>
                    bool_decide (irc_lower (nick_of token') = irc_lower (nick_of token)
                                 → nick_of token' = nick_of token)) r
      && names_fit ch r
  end.

(** [jump_server] called once for every outcome of [outcomes]. *)
Definition jumps (self : SingleServerIRCBot.t) (msg : string)
    (outcomes : list bool) : result SingleServerIRCBot.t :=
  for_each (fun self reachable => SingleServerIRCBot.jump_server self msg reachable)
    outcomes self.

(** The channel stored for [name], under whatever spelling. *)
Definition channel_of (self : SingleServerIRCBot.t) (name : string)
  : result Channel.t :=
  IRCDict.__getitem__ (SingleServerIRCBot.channels self) name.

(** Every stored channel satisfies [P]. *)
Definition all_channels (P : Channel.t → bool) (self : SingleServerIRCBot.t)
  : bool :=
  forallb P (IRCDict.values (SingleServerIRCBot.channels self)).
End Scenario.

(** * Properties *)

(** ** The builtin dictionary *)

Section PyDictFacts.
Context {V : Type}.
Implicit Types (d : list (string * V)) (k key : string) (v : V).

Lemma get_set d key v k :
  PyDict.get (PyDict.set d key v) k
  = if decide (key = k) then Some v else PyDict.get d k.
Proof.
  induction d as [|[k0 v0] d IH]; simpl.
  - reflexivity.
  - destruct (decide (k0 = key)) as [->|Hne]; simpl.
    + destruct (decide (key = k)); reflexivity.
    + rewrite IH. destruct (decide (k0 = k)) as [->|]; [|reflexivity].
      destruct (decide (key = k)); congruence.
Qed.

Lemma contains_set d key v k :
  PyDict.contains (PyDict.set d key v) k
  = bool_decide (key = k) || PyDict.contains d k.
Proof.
  unfold PyDict.contains. rewrite get_set.
  destruct (decide (key = k)).
  - rewrite bool_decide_eq_true_2; done.
  - rewrite bool_decide_eq_false_2; done.
Qed.

Lemma get_without d key k :
  PyDict.get (filter (fun p => p.1 ≠ key) d) k
  = if decide (key = k) then None else PyDict.get d k.
Proof.
  induction d as [|[k0 v0] d IH]; simpl.
  - destruct (decide (key = k)); reflexivity.
  - rewrite filter_cons. simpl. destruct (decide (k0 ≠ key)) as [Hne|Heq]; simpl.
    + rewrite IH. destruct (decide (k0 = k)) as [->|]; [|reflexivity].
      destruct (decide (key = k)); congruence.
    + apply dec_stable in Heq. subst k0. rewrite IH.
      destruct (decide (key = k)); reflexivity.
Qed.

Lemma del_Some d key :
  PyDict.contains d key = true →
  PyDict.del d key = Some (filter (fun p => p.1 ≠ key) d).
Proof. unfold PyDict.del. intros ->. reflexivity. Qed.

Lemma del_None d key :
  PyDict.contains d key = false → PyDict.del d key = None.
Proof. unfold PyDict.del. intros ->. reflexivity. Qed.

Lemma contains_without d key k :
  PyDict.contains (filter (fun p => p.1 ≠ key) d) k
  = negb (bool_decide (key = k)) && PyDict.contains d k.
Proof.
  unfold PyDict.contains. rewrite get_without.
  destruct (decide (key = k)).
  - rewrite bool_decide_eq_true_2; done.
  - rewrite bool_decide_eq_false_2; done.
Qed.

Lemma contains_keys d k : PyDict.contains d k = true ↔ k ∈ PyDict.keys d.
Proof.
  unfold PyDict.contains, PyDict.keys.
  induction d as [|[k0 v0] d IH]; simpl.
  - split; [discriminate | intros H; inversion H].
  - rewrite elem_of_cons. destruct (decide (k0 = k)) as [->|Hne].
    + split; auto.
    + rewrite IH. split; [auto | intros [->|]; [congruence | assumption]].
Qed.

Lemma get_elem_of d k v : PyDict.get d k = Some v → (k, v) ∈ d.
Proof.
  induction d as [|[k0 v0] d IH]; simpl; [discriminate|].
  destruct (decide (k0 = k)) as [->|].
  - intros [= ->]. apply elem_of_cons. auto.
  - intros H. apply elem_of_cons. auto.
Qed.

Lemma get_app d1 d2 k :
  PyDict.get (d1 ++ d2) k
  = match PyDict.get d1 k with
    | Some v => Some v
    | None => PyDict.get d2 k
    end.
Proof.
  induction d1 as [|[k0 v0] d1 IH]; simpl; [reflexivity|].
  destruct (decide (k0 = k)); auto.
Qed.

Lemma get_NoDup d k v :
  NoDup (PyDict.keys d) → (k, v) ∈ d → PyDict.get d k = Some v.
Proof.
  unfold PyDict.keys.
  induction d as [|[k0 v0] d IH]; simpl; intros Hnd Hin.
  - inversion Hin.
  - apply NoDup_cons in Hnd as [Hfresh Hnd].
    apply elem_of_cons in Hin as [[= -> ->]|Hin].
    + rewrite decide_True; done.
    + destruct (decide (k0 = k)) as [->|]; [|auto].
      exfalso. apply Hfresh. apply list_elem_of_fmap. exists (k, v). auto.
Qed.
End PyDictFacts.

(** ** The case-folding dictionary *)

Section IRCDictFacts.
Context {V : Type}.
Implicit Types (d : IRCDict.t V) (k key ck : string) (v : V).

Lemma sound_spec d :
  Inv.sound d = true ↔
  ∀ ck k, IRCDict.canon_keys d !! ck = Some k →
          irc_lower k = ck ∧ IRCDict.__contains__ d k = true.
Proof. unfold Inv.sound. rewrite bool_decide_eq_true. reflexivity. Qed.

Lemma complete_spec d :
  Inv.complete d = true ↔
  ∀ k, IRCDict.__contains__ d k = true →
       IRCDict.canon_keys d !! irc_lower k = Some k.
Proof.
  unfold Inv.complete, IRCDict.__contains__, IRCDict.keys.
  rewrite forallb_forall. split.
  - intros H k Hk. apply contains_keys, list_elem_of_In, H in Hk.
    apply bool_decide_eq_true in Hk. exact Hk.
  - intros H k Hk. apply bool_decide_eq_true, H, contains_keys, list_elem_of_In, Hk.
Qed.

Lemma absent_spec d key :
  Inv.absent d key = true ↔
  ∀ k, IRCDict.__contains__ d k = true → irc_lower k ≠ irc_lower key.
Proof.
  unfold Inv.absent, IRCDict.__contains__, IRCDict.keys.
  rewrite forallb_forall. split.
  - intros H k Hk. apply contains_keys, list_elem_of_In, H in Hk.
    apply bool_decide_eq_true in Hk. exact Hk.
  - intros H k Hk. apply bool_decide_eq_true, H, contains_keys, list_elem_of_In, Hk.
Qed.

Lemma wf_spec d : Inv.wf d = true ↔ Inv.sound d = true ∧ Inv.complete d = true.
Proof. unfold Inv.wf. apply andb_true_iff. Qed.

(** A sound dictionary holds no key of a class without canonical key. *)
Lemma sound_absent d key :
  Inv.sound d = true → Inv.absent d key = true →
  IRCDict.canon_keys d !! irc_lower key = None.
Proof.
  intros Hs Ha. destruct (IRCDict.canon_keys d !! irc_lower key) as [k|] eqn:E;
    [|reflexivity].
  apply sound_spec in E as [E1 E2]; [|assumption].
  exfalso. eapply absent_spec; eauto.
Qed.

Lemma delitem_registered d key k :
  IRCDict.canon_keys d !! irc_lower key = Some k →
  IRCDict.__contains__ d k = true →
  IRCDict.__delitem__ d key
  = Ok {| IRCDict.data := filter (fun p => p.1 ≠ k) (IRCDict.data d);
          IRCDict.canon_keys := delete (irc_lower key) (IRCDict.canon_keys d) |}.
Proof.
  unfold IRCDict.__delitem__, IRCDict.__contains__. intros -> Hk. simpl.
  rewrite (del_Some _ _ Hk). reflexivity.
Qed.

Lemma delitem_unregistered d key :
  IRCDict.canon_keys d !! irc_lower key = None →
  IRCDict.__delitem__ d key = Raise KeyError.
Proof. unfold IRCDict.__delitem__. intros ->. reflexivity. Qed.

Lemma setitem_new d key v :
  IRCDict.__contains__ d key = false →
  IRCDict.__setitem__ d key v
  = Ok {| IRCDict.data := PyDict.set (IRCDict.data d) key v;
          IRCDict.canon_keys := <[irc_lower key := key]> (IRCDict.canon_keys d) |}.
Proof. unfold IRCDict.__setitem__. intros ->. reflexivity. Qed.

(** Deleting a key from a well-formed dictionary removes that very key. *)
Lemma delitem_wf d key :
  Inv.wf d = true → IRCDict.__contains__ d key = true →
  ∃ d', IRCDict.__delitem__ d key = Ok d' ∧ Inv.wf d' = true ∧
        ∀ k, IRCDict.__contains__ d' k
             = negb (bool_decide (key = k)) && IRCDict.__contains__ d k.
Proof.
  intros [Hs Hc]%wf_spec Hkey.
  pose proof (proj1 (complete_spec d) Hc) as Hc'.
  pose proof (proj1 (sound_spec d) Hs) as Hs'.
  eexists. split; [apply delitem_registered; eauto|].
  assert (Hin : ∀ k, IRCDict.__contains__
            {| IRCDict.data := filter (fun p => p.1 ≠ key) (IRCDict.data d);
               IRCDict.canon_keys := delete (irc_lower key) (IRCDict.canon_keys d) |} k
            = negb (bool_decide (key = k)) && IRCDict.__contains__ d k)
    by (intros k; apply contains_without).
  split; [|exact Hin].
  apply wf_spec. split.
  - apply sound_spec. intros ck k. simpl. intros Hck.
    apply lookup_delete_Some in Hck as [Hne Hck].
    apply Hs' in Hck as [Hl Hk]. split; [assumption|].
    rewrite Hin, Hk, bool_decide_eq_false_2; [reflexivity|]. congruence.
  - apply complete_spec. intros k. rewrite Hin. simpl.
    intros [Hne Hk]%andb_true_iff.
    apply negb_true_iff, bool_decide_eq_false in Hne.
    rewrite lookup_delete_ne; [auto|].
    intros Heq. apply Hne. apply Hc' in Hk, Hkey. congruence.
Qed.

(** Storing under a key that is stored, or that has no stored equivalent,
    succeeds and keeps the dictionary well-formed. *)
Lemma setitem_wf d key v :
  Inv.wf d = true →
  IRCDict.__contains__ d key = true ∨ Inv.absent d key = true →
  ∃ d', IRCDict.__setitem__ d key v = Ok d' ∧ Inv.wf d' = true ∧
        ∀ k, IRCDict.__contains__ d' k
             = bool_decide (key = k) || IRCDict.__contains__ d k.
Proof.
  intros Hwf Hcase.
  assert (∃ d1, (if IRCDict.__contains__ d key
                 then IRCDict.__delitem__ d key else Ok d) = Ok d1
                ∧ Inv.wf d1 = true
                ∧ IRCDict.canon_keys d1 !! irc_lower key = None
                ∧ ∀ k, IRCDict.__contains__ d1 k
                       = negb (bool_decide (key = k)) && IRCDict.__contains__ d k)
    as (d1 & Hd1 & Hwf1 & Hnone & Hin1).
  { destruct (IRCDict.__contains__ d key) eqn:Hkey.
    - destruct (delitem_wf d key Hwf Hkey) as (d1 & E & Hwf1 & Hin1).
      exists d1. repeat split; try assumption.
      destruct (IRCDict.canon_keys d1 !! irc_lower key) as [k|] eqn:Ek;
        [|reflexivity].
      exfalso. apply wf_spec in Hwf as [Hs Hc], Hwf1 as [Hs1 Hc1].
      pose proof (proj1 (complete_spec d) Hc key Hkey) as Hreg.
      rewrite (delitem_registered d key key Hreg Hkey) in E.
      injection E as <-. simpl in Ek. rewrite lookup_delete_eq in Ek. discriminate.
    - destruct Hcase as [?|Habs]; [congruence|].
      exists d. repeat split; try assumption.
      + apply wf_spec in Hwf as [Hs _]. apply sound_absent; assumption.
      + intros k. destruct (decide (key = k)) as [<-|].
        * rewrite bool_decide_eq_true_2, Hkey; done.
        * rewrite bool_decide_eq_false_2; done. }
  unfold IRCDict.__setitem__. rewrite Hd1. simpl.
  eexists. split; [reflexivity|].
  assert (Hin : ∀ k, IRCDict.__contains__
            {| IRCDict.data := PyDict.set (IRCDict.data d1) key v;
               IRCDict.canon_keys := <[irc_lower key := key]> (IRCDict.canon_keys d1) |} k
            = bool_decide (key = k) || IRCDict.__contains__ d k).
  { intros k. unfold IRCDict.__contains__ at 1. simpl.
    rewrite contains_set. fold (IRCDict.__contains__ d1 k). rewrite Hin1.
    destruct (bool_decide (key = k)); reflexivity. }
  split; [|exact Hin].
  apply wf_spec in Hwf1 as [Hs1 Hc1].
  pose proof (proj1 (complete_spec d1) Hc1) as Hc1'.
  pose proof (proj1 (sound_spec d1) Hs1) as Hs1'.
  assert (Hin' : ∀ k, IRCDict.__contains__
            {| IRCDict.data := PyDict.set (IRCDict.data d1) key v;
               IRCDict.canon_keys := <[irc_lower key := key]> (IRCDict.canon_keys d1) |} k
            = bool_decide (key = k) || IRCDict.__contains__ d1 k)
    by (intros k; apply contains_set).
  apply wf_spec. split.
  - apply sound_spec. intros ck k. simpl. intros Hck.
    apply lookup_insert_Some in Hck as [[<- <-]|[Hne Hck]].
    + split; [reflexivity|]. rewrite Hin', bool_decide_eq_true_2; done.
    + apply Hs1' in Hck as [Hl Hk]. split; [assumption|].
      rewrite Hin', Hk. apply orb_true_r.
  - apply complete_spec. intros k. rewrite Hin'. simpl.
    intros [Heq|Hk]%orb_true_iff.
    + apply bool_decide_eq_true in Heq as <-. apply lookup_insert_eq.
    + apply Hc1' in Hk. rewrite lookup_insert_ne; [assumption|].
      intros Heq. rewrite <- Heq, Hnone in Hk. discriminate.
Qed.
End IRCDictFacts.

Section IRCDictLookup.
Context {V : Type}.
Implicit Types (d : IRCDict.t V) (a b k key : string) (v : V).

(** What [__setitem__] stores can be fetched under every equivalent
    spelling of the key, whatever the dictionary held before. *)
Lemma getitem_setitem_equiv d d' a b v :
  irc_lower a = irc_lower b →
  IRCDict.__setitem__ d a v = Ok d' →
  IRCDict.__getitem__ d' b = Ok v.
Proof.
  intros Hab. unfold IRCDict.__setitem__.
  destruct (if IRCDict.__contains__ d a then _ else _) as [d1|e]; simpl;
    [|discriminate].
  intros [= <-]. unfold IRCDict.__getitem__. simpl.
  rewrite <- Hab, lookup_insert_eq. simpl.
  rewrite get_set, decide_True; done.
Qed.

(** [has_key], unlike [__contains__], does compare by equivalence. *)
Lemma has_key_setitem_equiv d d' a b v :
  irc_lower a = irc_lower b →
  IRCDict.__setitem__ d a v = Ok d' →
  IRCDict.has_key d' b = true.
Proof.
  intros Hab. unfold IRCDict.__setitem__.
  destruct (if IRCDict.__contains__ d a then _ else _) as [d1|e]; simpl;
    [|discriminate].
  intros [= <-]. unfold IRCDict.has_key. simpl.
  rewrite <- Hab, lookup_insert_eq. apply bool_decide_eq_true. eauto.
Qed.

(** Storing under a new spelling of a stored key keeps the old entry. *)
Lemma setitem_other_spelling d key k v :
  IRCDict.__contains__ d key = false → IRCDict.__contains__ d k = true →
  ∃ d', IRCDict.__setitem__ d key v = Ok d'
        ∧ k ∈ IRCDict.__iter__ d' ∧ key ∈ IRCDict.__iter__ d'.
Proof.
  intros Hkey Hk. rewrite (setitem_new d key v Hkey).
  eexists. split; [reflexivity|]. unfold IRCDict.__iter__. simpl.
  split; apply contains_keys; rewrite contains_set.
  - unfold IRCDict.__contains__ in Hk. rewrite Hk. apply orb_true_r.
  - rewrite bool_decide_eq_true_2; reflexivity.
Qed.
End IRCDictLookup.

(** C1, evaluated where the code departs from it.  After
    [d["Alice"] = 1] on an empty dictionary the equivalent key "alice" is
    found by [__getitem__] and by [has_key], but [__contains__] compares
    the spelling and answers [False]. *)
Theorem contains_compares_spelling :
  ∃ d, IRCDict.__setitem__ (IRCDict.__init__ None) "Alice" 1 = Ok d
       ∧ irc_lower "Alice" = irc_lower "alice"
       ∧ IRCDict.__getitem__ d "alice" = Ok 1
       ∧ IRCDict.has_key d "alice" = true
       ∧ IRCDict.__contains__ d "alice" = false.
Proof. eexists. split; [vm_compute; reflexivity|]. vm_compute. tauto. Qed.

(** C2, evaluated where the code departs from it.  The dictionary holding
    "Alice" alone is well-formed; [d["alice"] = 2] does not remove the
    equivalent entry, so that iteration yields both spellings and the
    result is no longer well-formed. *)
Theorem setitem_keeps_stale_spelling :
  ∃ d0 d1, IRCDict.__setitem__ (IRCDict.__init__ None) "Alice" 1 = Ok d0
           ∧ Inv.wf d0 = true
           ∧ IRCDict.__setitem__ d0 "alice" 2 = Ok d1
           ∧ IRCDict.items d1 = [("Alice", 1); ("alice", 2)]
           ∧ IRCDict.__iter__ d1 = ["Alice"; "alice"]
           ∧ Inv.wf d1 = false.
Proof.
  eexists. eexists. split; [vm_compute; reflexivity|].
  split; [vm_compute; reflexivity|].
  split; [vm_compute; reflexivity|].
  vm_compute. tauto.
Qed.

(** ** Membership and status of a channel *)

Section ChannelFacts.
Implicit Types (ch : Channel.t) (d : IRCDict.t Z) (n nick k : string).

Lemma channel_wf_spec ch :
  Inv.channel_wf ch = true ↔
  Inv.wf (Channel.userdict ch) = true ∧ Inv.wf (Channel.operdict ch) = true
  ∧ Inv.wf (Channel.voiceddict ch) = true.
Proof. unfold Inv.channel_wf. rewrite !andb_true_iff. tauto. Qed.

Lemma forallb_contains (d1 d2 : IRCDict.t Z) :
  forallb (IRCDict.__contains__ d2) (IRCDict.keys d1) = true ↔
  ∀ n, IRCDict.__contains__ d1 n = true → IRCDict.__contains__ d2 n = true.
Proof.
  rewrite forallb_forall. unfold IRCDict.keys. split.
  - intros H n Hn. apply H, list_elem_of_In, contains_keys, Hn.
  - intros H n Hn. apply H, contains_keys, list_elem_of_In, Hn.
Qed.

Lemma status_spec ch :
  Inv.status_in_members ch = true ↔
  (∀ n, Channel.is_oper ch n = true → Channel.has_user ch n = true)
  ∧ (∀ n, Channel.is_voiced ch n = true → Channel.has_user ch n = true).
Proof.
  unfold Inv.status_in_members, Channel.opers, Channel.voiced.
  rewrite andb_true_iff.
  unfold Channel.has_user, Channel.is_oper, Channel.is_voiced.
  rewrite !forallb_contains. reflexivity.
Qed.

(** Stored spellings that are members are members up to equivalence. *)
Lemma status_subset_upto ch :
  Inv.status_in_members ch = true →
  Inv.subset_upto (Channel.opers ch) (Channel.users ch)
  ∧ Inv.subset_upto (Channel.voiced ch) (Channel.users ch).
Proof.
  intros [Ho Hv]%status_spec.
  split; intros x Hx; exists x; (split; [|reflexivity]);
    apply contains_keys; [apply Ho | apply Hv]; apply contains_keys, Hx.
Qed.

(** The body of [remove_user] on a well-formed dictionary. *)
Lemma discard_wf d nick :
  Inv.wf d = true →
  ∃ d', Channel.discard d nick = Ok d' ∧ Inv.wf d' = true ∧
        ∀ k, IRCDict.__contains__ d' k
             = negb (bool_decide (nick = k)) && IRCDict.__contains__ d k.
Proof.
  intros Hwf. unfold Channel.discard.
  destruct (IRCDict.__contains__ d nick) eqn:Hn.
  - apply delitem_wf; assumption.
  - exists d. repeat split; [assumption|]. intros k.
    destruct (decide (nick = k)) as [<-|].
    + rewrite bool_decide_eq_true_2, Hn; done.
    + rewrite bool_decide_eq_false_2; done.
Qed.

(** A member that gets a status is stored in the status dictionary or
    has no equivalent there. *)
Lemma member_stored_or_absent (users d : IRCDict.t Z) n :
  Inv.wf users = true →
  (∀ k, IRCDict.__contains__ d k = true → IRCDict.__contains__ users k = true) →
  IRCDict.__contains__ users n = true →
  IRCDict.__contains__ d n = true ∨ Inv.absent d n = true.
Proof.
  intros [_ Hc]%wf_spec Hsub Hn.
  pose proof (proj1 (complete_spec users) Hc) as Hc'.
  destruct (IRCDict.__contains__ d n) eqn:Hd; [left; reflexivity | right].
  apply absent_spec. intros k Hk Heq.
  pose proof (Hc' k (Hsub k Hk)) as H1. pose proof (Hc' n Hn) as H2.
  rewrite Heq, H2 in H1. injection H1 as ->. congruence.
Qed.

Lemma apply_inv ch m :
  Inv.channel_inv ch = true → Inv.permitted ch m = true →
  ∃ ch', Inv.apply ch m = Ok ch' ∧ Inv.channel_inv ch' = true.
Proof.
  unfold Inv.channel_inv. intros [Hwf Hst]%andb_true_iff Hperm.
  apply channel_wf_spec in Hwf as (Hu & Ho & Hv).
  apply status_spec in Hst as [Hso Hsv].
  destruct m as [n|n|n]; simpl in *.
  - destruct (setitem_wf (Channel.operdict ch) n 1 Ho) as (d' & E & Hwf' & Hin).
    { apply (member_stored_or_absent (Channel.userdict ch)); assumption. }
    unfold Channel.set_mode. rewrite decide_True by reflexivity. simpl.
    rewrite E. simpl. eexists. split; [reflexivity|].
    apply andb_true_iff. split.
    + apply channel_wf_spec. simpl. auto.
    + apply status_spec. unfold Channel.is_oper, Channel.is_voiced, Channel.has_user.
      simpl. split; [|exact Hsv]. intros k. rewrite Hin.
      intros [Heq|Hk]%orb_true_iff; [|exact (Hso k Hk)].
      apply bool_decide_eq_true in Heq as <-. exact Hperm.
  - destruct (setitem_wf (Channel.voiceddict ch) n 1 Hv) as (d' & E & Hwf' & Hin).
    { apply (member_stored_or_absent (Channel.userdict ch)); assumption. }
    unfold Channel.set_mode.
    rewrite decide_False by discriminate. rewrite decide_True by reflexivity.
    simpl. rewrite E. simpl. eexists. split; [reflexivity|].
    apply andb_true_iff. split.
    + apply channel_wf_spec. simpl. auto.
    + apply status_spec. unfold Channel.is_oper, Channel.is_voiced, Channel.has_user.
      simpl. split; [exact Hso|]. intros k. rewrite Hin.
      intros [Heq|Hk]%orb_true_iff; [|exact (Hsv k Hk)].
      apply bool_decide_eq_true in Heq as <-. exact Hperm.
  - destruct (discard_wf _ n Hu) as (u & Eu & Hwu & Hinu).
    destruct (discard_wf _ n Ho) as (o & Eo & Hwo & Hino).
    destruct (discard_wf _ n Hv) as (v & Ev & Hwv & Hinv).
    unfold Channel.remove_user. rewrite Eu, Eo, Ev. simpl.
    eexists. split; [reflexivity|].
    apply andb_true_iff. split.
    + apply channel_wf_spec. simpl. auto.
    + apply status_spec. unfold Channel.is_oper, Channel.is_voiced, Channel.has_user.
      simpl. split; intros k; rewrite ?Hinu, ?Hino, ?Hinv;
        intros [-> Hk]%andb_true_iff; simpl; [apply Hso | apply Hsv]; exact Hk.
Qed.
End ChannelFacts.

(** C3, as stated, fails: giving operator status to a nick that is not a
    member puts it into the operator set alone. *)
Lemma set_mode_oper_of_stranger :
  ∃ ch, Inv.run Channel.__init__ [Inv.SetOper "alice"] = Ok ch
        ∧ Channel.opers ch = ["alice"] ∧ Channel.users ch = []
        ∧ ¬ Inv.subset_upto (Channel.opers ch) (Channel.users ch).
Proof.
  eexists. split; [vm_compute; reflexivity|].
  split; [vm_compute; reflexivity|].
  split; [vm_compute; reflexivity|].
  intros H. destruct (H "alice") as (y & Hy & _).
  - vm_compute. apply list_elem_of_here.
  - vm_compute in Hy. inversion Hy.
Qed.

(** C3, amended.  Take a channel whose three dictionaries are well-formed
    and whose operators and voiced nicks are stored members.  Every
    sequence of [set_mode('o', n)], [set_mode('v', n)] and [remove_user(n)]
    in which a status is only given to a nick that is a stored member at
    that moment runs without exception, and the resulting channel is
    again of that kind; in particular its operators and voiced nicks are
    members up to equivalence. *)
Theorem guarded_mutations_keep_status_in_members (ch : Channel.t)
    (ms : list Inv.mutation) :
  Inv.channel_inv ch = true → Inv.guarded ch ms = true →
  ∃ ch', Inv.run ch ms = Ok ch'
         ∧ Inv.channel_inv ch' = true
         ∧ Inv.subset_upto (Channel.opers ch') (Channel.users ch')
         ∧ Inv.subset_upto (Channel.voiced ch') (Channel.users ch').
Proof.
  revert ch. induction ms as [|m ms IH]; intros ch Hinv Hg.
  - exists ch. split; [reflexivity|]. split; [assumption|].
    apply status_subset_upto.
    unfold Inv.channel_inv in Hinv. apply andb_true_iff in Hinv. tauto.
  - simpl in Hg. apply andb_true_iff in Hg as [Hperm Hg].
    destruct (apply_inv ch m Hinv Hperm) as (ch1 & E & Hinv1).
    rewrite E in Hg. destruct (IH ch1 Hinv1 Hg) as (ch' & Erun & Hres).
    exists ch'. split; [|exact Hres].
    unfold Inv.run in *. simpl. rewrite E. simpl. exact Erun.
Qed.

Lemma guarded_mutations_witness :
  ∃ ch', Inv.run Sample.alice_oper
           [Inv.SetVoiced "alice"; Inv.SetOper "alice"; Inv.RemoveUser "Alice";
            Inv.RemoveUser "alice"; Inv.RemoveUser "alice"] = Ok ch'
         ∧ Inv.channel_inv ch' = true
         ∧ Inv.subset_upto (Channel.opers ch') (Channel.users ch')
         ∧ Inv.subset_upto (Channel.voiced ch') (Channel.users ch').
Proof.
  apply (guarded_mutations_keep_status_in_members Sample.alice_oper
           [Inv.SetVoiced "alice"; Inv.SetOper "alice"; Inv.RemoveUser "Alice";
            Inv.RemoveUser "alice"; Inv.RemoveUser "alice"]);
    vm_compute; reflexivity.
Defined.

(** ** Renaming a member *)

(** [d[after] = 1; del d[before]] on a well-formed dictionary, for a key
    [before] that is stored and a key [after] of another class. *)
Lemma rekey_wf (d : IRCDict.t Z) (before after : string) :
  Inv.wf d = true → IRCDict.__contains__ d before = true →
  irc_lower before ≠ irc_lower after →
  ∃ d', Channel.rekey d before after = Ok d'
        ∧ IRCDict.__contains__ d' after = true
        ∧ IRCDict.__contains__ d' before = false.
Proof.
  intros Hwf Hb Hne.
  assert (before ≠ after) as Hne' by congruence.
  unfold Channel.rekey.
  destruct (IRCDict.__contains__ d after) eqn:Ha.
  - destruct (setitem_wf d after 1 Hwf (or_introl Ha)) as (d1 & E1 & Hwf1 & Hin1).
    rewrite E1. simpl.
    destruct (delitem_wf d1 before Hwf1) as (d2 & E2 & _ & Hin2).
    { rewrite Hin1, Hb. apply orb_true_r. }
    exists d2. split; [exact E2|]. rewrite !Hin2, !Hin1, Ha, Hb.
    rewrite (bool_decide_eq_false_2 (before = after)) by assumption.
    rewrite (bool_decide_eq_true_2 (before = before)) by reflexivity.
    rewrite (bool_decide_eq_true_2 (after = after)) by reflexivity.
    split; reflexivity.
  - rewrite (setitem_new d after 1 Ha). simpl.
    apply wf_spec in Hwf as [_ Hc].
    pose proof (proj1 (complete_spec d) Hc before Hb) as Hreg.
    erewrite (delitem_registered _ before before).
    + eexists. split; [reflexivity|].
      unfold IRCDict.__contains__ in *. simpl.
      rewrite !contains_without, !contains_set, Ha, Hb.
      rewrite (bool_decide_eq_false_2 (before = after)) by assumption.
      rewrite (bool_decide_eq_true_2 (before = before)) by reflexivity.
      rewrite (bool_decide_eq_true_2 (after = after)) by reflexivity.
      split; reflexivity.
    + simpl. rewrite lookup_insert_ne by congruence. exact Hreg.
    + unfold IRCDict.__contains__ in *. simpl. rewrite contains_set, Hb.
      apply orb_true_r.
Qed.

(** C4, as stated, fails when the new nick is an equivalent spelling of
    the old one, or the old nick itself: alice, a member and operator, is
    renamed to Alice, after which Alice is neither member nor operator
    while alice still is a member. *)
Lemma change_nick_to_equivalent_spelling :
  Channel.has_user Sample.alice_oper "alice" = true
  ∧ Channel.is_oper Sample.alice_oper "alice" = true
  ∧ (∃ ch, Channel.change_nick Sample.alice_oper "alice" "Alice" = Ok ch
           ∧ Channel.is_oper ch "Alice" = false
           ∧ Channel.has_user ch "Alice" = false
           ∧ Channel.has_user ch "alice" = true)
  ∧ (∃ ch, Channel.change_nick Sample.alice_oper "alice" "alice" = Ok ch
           ∧ Channel.is_oper ch "alice" = false
           ∧ Channel.has_user ch "alice" = false).
Proof.
  split; [vm_compute; reflexivity|]. split; [vm_compute; reflexivity|].
  split; eexists; (split; [vm_compute; reflexivity|]); vm_compute; tauto.
Qed.

(** C4, amended.  In a channel whose three dictionaries are well-formed
    and in which [nick1] is a stored member and operator, renaming
    [nick1] to a nick [nick2] that is not equivalent to it runs without
    exception; afterwards [nick2] is a member and an operator, and [nick1]
    is in none of the three dictionaries. *)
Theorem change_nick_carries_status (ch : Channel.t) (nick1 nick2 : string) :
  Inv.channel_wf ch = true →
  Channel.has_user ch nick1 = true → Channel.is_oper ch nick1 = true →
  irc_lower nick1 ≠ irc_lower nick2 →
  ∃ ch', Channel.change_nick ch nick1 nick2 = Ok ch'
         ∧ Channel.is_oper ch' nick2 = true
         ∧ Channel.has_user ch' nick2 = true
         ∧ Channel.has_user ch' nick1 = false
         ∧ Channel.is_oper ch' nick1 = false
         ∧ Channel.is_voiced ch' nick1 = false.
Proof.
  intros (Hu & Ho & Hv)%channel_wf_spec Hmem Hop Hne.
  unfold Channel.has_user, Channel.is_oper in Hmem, Hop.
  destruct (rekey_wf _ nick1 nick2 Hu Hmem Hne) as (u & Eu & Hu2 & Hu1).
  destruct (rekey_wf _ nick1 nick2 Ho Hop Hne) as (o & Eo & Ho2 & Ho1).
  unfold Channel.change_nick. rewrite Eu, Hop, Eo. simpl.
  destruct (IRCDict.__contains__ (Channel.voiceddict ch) nick1) eqn:Hvo.
  - destruct (rekey_wf _ nick1 nick2 Hv Hvo Hne) as (v & Ev & _ & Hv1).
    rewrite Ev. simpl. eexists. split; [reflexivity|].
    unfold Channel.has_user, Channel.is_oper, Channel.is_voiced. simpl. tauto.
  - simpl. eexists. split; [reflexivity|].
    unfold Channel.has_user, Channel.is_oper, Channel.is_voiced. simpl. tauto.
Qed.

Lemma change_nick_witness :
  ∃ ch', Channel.change_nick Sample.alice_oper "alice" "Alice2" = Ok ch'
         ∧ Channel.is_oper ch' "Alice2" = true
         ∧ Channel.has_user ch' "Alice2" = true
         ∧ Channel.has_user ch' "alice" = false
         ∧ Channel.is_oper ch' "alice" = false
         ∧ Channel.is_voiced ch' "alice" = false.
Proof.
  apply (change_nick_carries_status Sample.alice_oper "alice" "Alice2");
    [vm_compute; reflexivity .. | vm_compute; discriminate].
Defined.

(** ** The handlers of the bot *)

Section StoreFacts.
Context {V : Type}.
Implicit Types (l : list (string * V)) (d : IRCDict.t V) (k key : string) (v : V).

Lemma without_set l key v :
  filter (fun p => p.1 ≠ key) (PyDict.set l key v)
  = filter (fun p => p.1 ≠ key) l.
Proof.
  induction l as [|[k0 v0] l IH]; simpl.
  - rewrite filter_cons, decide_False by (simpl; auto). reflexivity.
  - destruct (decide (k0 = key)) as [->|Hne].
    + rewrite !filter_cons, !decide_False by (simpl; auto). reflexivity.
    + rewrite !filter_cons, !decide_True by (simpl; auto). rewrite IH. reflexivity.
Qed.

Lemma set_set l key v v' :
  PyDict.set (PyDict.set l key v) key v' = PyDict.set l key v'.
Proof.
  induction l as [|[k0 v0] l IH]; simpl.
  - rewrite decide_True by reflexivity. reflexivity.
  - destruct (decide (k0 = key)) as [->|Hne]; simpl.
    + rewrite decide_True by reflexivity. reflexivity.
    + rewrite decide_False by assumption. rewrite IH. reflexivity.
Qed.

Lemma keys_set_stored l key v :
  PyDict.contains l key = true → PyDict.keys (PyDict.set l key v) = PyDict.keys l.
Proof.
  unfold PyDict.contains, PyDict.keys.
  induction l as [|[k0 v0] l IH]; simpl; [discriminate|].
  destruct (decide (k0 = key)) as [->|Hne]; simpl; [reflexivity|].
  intros H. f_equal. apply IH, H.
Qed.

(** [self[key].method(...)] in terms of [__getitem__]. *)
Lemma on_item_inv d key method d' :
  IRCDict.on_item d key method = Ok d' →
  ∃ ck obj obj',
    IRCDict.canon_keys d !! irc_lower key = Some ck
    ∧ PyDict.get (IRCDict.data d) ck = Some obj
    ∧ method obj = Ok obj'
    ∧ d' = {| IRCDict.data := PyDict.set (IRCDict.data d) ck obj';
              IRCDict.canon_keys := IRCDict.canon_keys d |}.
Proof.
  unfold IRCDict.on_item.
  destruct (IRCDict.canon_keys d !! irc_lower key) as [ck|] eqn:Hck; simpl;
    [|discriminate].
  destruct (PyDict.get (IRCDict.data d) ck) as [obj|] eqn:Hobj; simpl;
    [|discriminate].
  destruct (method obj) as [obj'|] eqn:E; simpl; [|discriminate].
  intros [= <-]. exists ck, obj, obj'. repeat split; assumption || reflexivity.
Qed.

Lemma getitem_inv d key obj :
  IRCDict.__getitem__ d key = Ok obj →
  ∃ ck, IRCDict.canon_keys d !! irc_lower key = Some ck
        ∧ PyDict.get (IRCDict.data d) ck = Some obj.
Proof.
  unfold IRCDict.__getitem__.
  destruct (IRCDict.canon_keys d !! irc_lower key) as [ck|] eqn:Hck; simpl;
    [|discriminate].
  destruct (PyDict.get (IRCDict.data d) ck) as [o|] eqn:Ho; simpl; [|discriminate].
  intros [= <-]. eauto.
Qed.

Lemma on_item_found d key method obj obj' :
  IRCDict.__getitem__ d key = Ok obj → method obj = Ok obj' →
  ∃ ck, IRCDict.canon_keys d !! irc_lower key = Some ck
        ∧ PyDict.get (IRCDict.data d) ck = Some obj
        ∧ IRCDict.on_item d key method
          = Ok {| IRCDict.data := PyDict.set (IRCDict.data d) ck obj';
                  IRCDict.canon_keys := IRCDict.canon_keys d |}.
Proof.
  intros (ck & Hck & Hobj)%getitem_inv Hm. exists ck. split; [exact Hck|].
  split; [exact Hobj|]. unfold IRCDict.on_item. rewrite Hck. simpl.
  rewrite Hobj. simpl. rewrite Hm. reflexivity.
Qed.

(** After [self[key].method(...)] a lookup of [key] gives the mutated
    object, and in a sound dictionary the other classes are untouched. *)
Lemma getitem_on_item d key method d' :
  IRCDict.on_item d key method = Ok d' →
  (∃ obj obj', IRCDict.__getitem__ d key = Ok obj ∧ method obj = Ok obj'
               ∧ IRCDict.__getitem__ d' key = Ok obj')
  ∧ (Inv.sound d = true →
     ∀ b, irc_lower b ≠ irc_lower key →
          IRCDict.__getitem__ d' b = IRCDict.__getitem__ d b).
Proof.
  intros (ck & obj & obj' & Hck & Hobj & Hm & ->)%on_item_inv. split.
  - exists obj, obj'. unfold IRCDict.__getitem__. simpl. rewrite Hck. simpl.
    rewrite Hobj, get_set, decide_True by reflexivity. auto.
  - intros Hs b Hne. pose proof (proj1 (sound_spec d) Hs) as Hs'.
    unfold IRCDict.__getitem__. simpl.
    destruct (IRCDict.canon_keys d !! irc_lower b) as [kb|] eqn:Hkb; simpl;
      [|reflexivity].
    rewrite get_set, decide_False; [reflexivity|].
    intros <-. destruct (Hs' _ _ Hck), (Hs' _ _ Hkb). congruence.
Qed.
End StoreFacts.

Section HandlerFacts.
Implicit Types (chans : IRCDict.t Channel.t) (self : SingleServerIRCBot.t).


Lemma on_item_unregistered chans key method :
  IRCDict.has_key chans key = false →
  IRCDict.on_item chans key method = Raise KeyError.
Proof.
  unfold IRCDict.has_key, IRCDict.on_item. intros H%bool_decide_eq_false.
  destruct (IRCDict.canon_keys chans !! irc_lower key); [|reflexivity].
  exfalso. apply H. eauto.
Qed.


End HandlerFacts.


Section JoinFacts.
Implicit Types (chans : IRCDict.t Channel.t) (self : SingleServerIRCBot.t).




End JoinFacts.



(** C6, evaluated where the code departs from it.  The bot is in #test
    and receives a NAMES reply that lists three equivalent spellings.
    After the first reply all three are members; the second reply removes
    the first of them again. *)
Theorem namreply_twice_differs :
  ∃ once twice ch1 ch2,
    SingleServerIRCBot._on_namreply Sample.in_test Sample.conn
      (Sample.event "irc.example.org" "bot" ["="; "#test"; "ab Ab aB"]) = Ok once
    ∧ SingleServerIRCBot._on_namreply once Sample.conn
        (Sample.event "irc.example.org" "bot" ["="; "#test"; "ab Ab aB"]) = Ok twice
    ∧ IRCDict.__getitem__ (SingleServerIRCBot.channels once) "#test" = Ok ch1
    ∧ IRCDict.__getitem__ (SingleServerIRCBot.channels twice) "#test" = Ok ch2
    ∧ Channel.users ch1 = ["bot"; "ab"; "Ab"; "aB"]
    ∧ Channel.users ch2 = ["bot"; "Ab"; "aB"]
    ∧ Channel.has_user ch1 "ab" = true
    ∧ Channel.has_user ch2 "ab" = false.
Proof.
  do 4 eexists.
  split; [vm_compute; reflexivity|]. split; [vm_compute; reflexivity|].
  split; [vm_compute; reflexivity|]. split; [vm_compute; reflexivity|].
  vm_compute. tauto.
Qed.

(** ** Clearing a mode *)

(** A key whose class has no canonical key cannot be deleted. *)
Lemma delitem_absent (d : IRCDict.t Z) (nick : string) :
  Inv.sound d = true → Inv.absent d nick = true →
  IRCDict.__delitem__ d nick = Raise KeyError.
Proof. intros Hs Ha. apply delitem_unregistered, sound_absent; assumption. Qed.

(** The same for a nick that [has_key] does not find, in any dictionary. *)
Lemma clear_mode_unregistered (ch : Channel.t) (nick : string) :
  (IRCDict.has_key (Channel.operdict ch) nick = false →
   Channel.clear_mode ch "o" (Some nick) = Ok ch)
  ∧ (IRCDict.has_key (Channel.voiceddict ch) nick = false →
     Channel.clear_mode ch "v" (Some nick) = Ok ch).
Proof.
  unfold IRCDict.has_key, Channel.clear_mode, Channel.clear_mode_try.
  split; intros H%bool_decide_eq_false.
  - rewrite decide_True by reflexivity. simpl.
    rewrite delitem_unregistered; [reflexivity|].
    destruct (_ !! _); [exfalso; eauto | reflexivity].
  - rewrite decide_False by discriminate. rewrite decide_True by reflexivity.
    simpl. rewrite delitem_unregistered; [reflexivity|].
    destruct (_ !! _); [exfalso; eauto | reflexivity].
Qed.

(** C7.  When a mode is not set on a channel (for o and v: the operator
    or voiced dictionary, which is sound, stores no key equivalent to the
    nick; for any other letter: the letter is not a key of [modes]),
    clearing it raises nothing and returns the channel as it was.  In
    particular a channel without limit remains without limit. *)
Theorem clear_mode_of_unset_mode (ch : Channel.t) (mode : string)
    (value : option string) :
  (Inv.sound (Channel.operdict ch) = true →
   Inv.sound (Channel.voiceddict ch) = true →
   Inv.mode_unset ch mode value = true →
   Channel.clear_mode ch mode value = Ok ch)
  ∧ (Channel.has_limit ch = false →
     ∃ ch', Channel.clear_mode ch "l" None = Ok ch'
            ∧ ch' = ch ∧ Channel.has_limit ch' = false).
Proof.
  split.
  - intros Hso Hsv. unfold Inv.mode_unset, Channel.clear_mode, Channel.clear_mode_try.
    destruct (decide (mode = "o")); [|destruct (decide (mode = "v"))].
    + destruct value as [nick|]; [|discriminate]. intros Ha. simpl.
      rewrite (delitem_absent _ _ Hso Ha). reflexivity.
    + destruct value as [nick|]; [|discriminate]. intros Ha. simpl.
      rewrite (delitem_absent _ _ Hsv Ha). reflexivity.
    + unfold Channel.has_mode. intros H%negb_true_iff%bool_decide_eq_false.
      destruct (Channel.modes ch !! mode); [exfalso; eauto | reflexivity].
  - intros Hl. exists ch. split; [|auto].
    unfold Channel.has_limit, Channel.has_mode in Hl.
    apply bool_decide_eq_false in Hl.
    unfold Channel.clear_mode, Channel.clear_mode_try.
    rewrite !decide_False by discriminate.
    destruct (Channel.modes ch !! "l"); [exfalso; eauto | reflexivity].
Qed.

Lemma clear_mode_of_unset_mode_witness :
  Channel.clear_mode Sample.alice_oper "o" (Some "Bob") = Ok Sample.alice_oper
  ∧ Channel.clear_mode Sample.alice_oper "v" (Some "alice") = Ok Sample.alice_oper
  ∧ Channel.clear_mode Sample.alice_oper "k" (Some "secret") = Ok Sample.alice_oper
  ∧ ∃ ch', Channel.clear_mode Sample.alice_oper "l" None = Ok ch'
           ∧ ch' = Sample.alice_oper ∧ Channel.has_limit ch' = false.
Proof.
  split; [|split; [|split]].
  - apply (proj1 (clear_mode_of_unset_mode Sample.alice_oper "o" (Some "Bob")));
      vm_compute; reflexivity.
  - apply (proj1 (clear_mode_of_unset_mode Sample.alice_oper "v" (Some "alice")));
      vm_compute; reflexivity.
  - apply (proj1 (clear_mode_of_unset_mode Sample.alice_oper "k" (Some "secret")));
      vm_compute; reflexivity.
  - apply (proj2 (clear_mode_of_unset_mode Sample.alice_oper "l" None));
      vm_compute; reflexivity.
Defined.

(** ** The rotation of the servers *)

(** C8.  With at least two servers in the list, [jump_server] raises
    nothing, moves the first server behind the others, whose order it
    keeps, and its last call on the connection is a [connect] to the
    server that was second and now is first. *)
Theorem jump_server_rotates (self : SingleServerIRCBot.t) (msg : string)
    (reachable : bool) (s1 s2 : Server) (rest : list Server) :
  SingleServerIRCBot.server_list self = s1 :: s2 :: rest →
  ∃ self', SingleServerIRCBot.jump_server self msg reachable = Ok self'
           ∧ SingleServerIRCBot.server_list self' = s2 :: rest ++ [s1]
           ∧ head (SingleServerIRCBot.server_list self') = Some s2
           ∧ last (calls (SingleServerIRCBot.connection self'))
             = Some (Connect (server s2) (port s2)
                       (SingleServerIRCBot._nickname self) (password s2)
                       (SingleServerIRCBot._username self)
                       (SingleServerIRCBot._realname self)
                       (SingleServerIRCBot.use_ssl self)).
Proof.
  intros Hl. unfold SingleServerIRCBot.jump_server.
  destruct (is_connected (SingleServerIRCBot.connection self)); simpl;
    rewrite Hl; simpl; (eexists; split; [reflexivity|]); simpl;
    rewrite last_snoc; auto.
Qed.

Lemma jump_server_rotates_witness :
  ∃ self', SingleServerIRCBot.jump_server Sample.bot "Changing servers" false
           = Ok self'
           ∧ SingleServerIRCBot.server_list self'
             = {| server := "irc.example.net"; port := 6697;
                  password := Some "secret" |}
               :: [{| server := "irc.example.com"; port := 6667; password := None |}]
               ++ [{| server := "irc.example.org"; port := 6667; password := None |}]
           ∧ head (SingleServerIRCBot.server_list self')
             = Some {| server := "irc.example.net"; port := 6697;
                       password := Some "secret" |}
           ∧ last (calls (SingleServerIRCBot.connection self'))
             = Some (Connect "irc.example.net" 6697 "bot" (Some "secret")
                       "bot" "bot" false).
Proof.
  apply (jump_server_rotates Sample.bot "Changing servers" false
           {| server := "irc.example.org"; port := 6667; password := None |}
           {| server := "irc.example.net"; port := 6697; password := Some "secret" |}
           [{| server := "irc.example.com"; port := 6667; password := None |}]).
  reflexivity.
Defined.

(** ** The reconnection interval *)

(** C9.  A reconnection interval that is [None], zero or negative is
    stored as 2^31; a positive one is stored as it is. *)
Theorem init_reconnection_interval (conn : Connection) (servers : list Server)
    (nickname : string) (username realname : option string)
    (interval : option Z) (use_ssl : bool) :
  (interval = None ∨ (∃ i, interval = Some i ∧ i ≤ 0) →
   SingleServerIRCBot.reconnection_interval
     (SingleServerIRCBot.__init__ conn servers nickname username realname
        interval use_ssl) = 2 ^ 31)
  ∧ (∀ i, interval = Some i → 0 < i →
     SingleServerIRCBot.reconnection_interval
       (SingleServerIRCBot.__init__ conn servers nickname username realname
          interval use_ssl) = i).
Proof.
  split.
  - intros [->|(i & -> & Hi)]; [reflexivity|]. simpl.
    destruct (decide (i = 0)) as [->|Hne]; [reflexivity|].
    rewrite (bool_decide_eq_false_2 _ Hne), bool_decide_eq_true_2 by lia.
    reflexivity.
  - intros i -> Hi. simpl.
    rewrite !bool_decide_eq_false_2 by lia. reflexivity.
Qed.

Lemma init_reconnection_interval_witness :
  SingleServerIRCBot.reconnection_interval
    (SingleServerIRCBot.__init__ Sample.conn Sample.servers "bot" None None
       (Some (-5)) false) = 2147483648
  ∧ SingleServerIRCBot.reconnection_interval
      (SingleServerIRCBot.__init__ Sample.conn Sample.servers "bot" None None
         None false) = 2147483648
  ∧ SingleServerIRCBot.reconnection_interval
      (SingleServerIRCBot.__init__ Sample.conn Sample.servers "bot" None None
         (Some 60) false) = 60.
Proof.
  split; [|split].
  - apply (proj1 (init_reconnection_interval Sample.conn Sample.servers "bot"
                    None None (Some (-5)) false)).
    right. exists (-5). split; [reflexivity | lia].
  - apply (proj1 (init_reconnection_interval Sample.conn Sample.servers "bot"
                    None None None false)).
    left. reflexivity.
  - apply (proj2 (init_reconnection_interval Sample.conn Sample.servers "bot"
                    None None (Some 60) false) 60); [reflexivity | lia].
Defined.

(** ** Copying a mapping into the dictionary *)

Section UpdateFacts.
Context {V : Type}.
Implicit Types (src : list (string * V)) (k : string) (v : V).

Lemma get_update_other src k (l : list (string * V)) :
  k ∉ src.*1 →
  PyDict.get (fold_left (fun d kv => PyDict.set d kv.1 kv.2) src l) k
  = PyDict.get l k.
Proof.
  revert l. induction src as [|[k0 v0] src IH]; intros l Hk; simpl; [reflexivity|].
  apply not_elem_of_cons in Hk as [Hne Hk]. simpl in *.
  rewrite IH, get_set, decide_False by auto. reflexivity.
Qed.

Lemma get_update src k v (l : list (string * V)) :
  NoDup src.*1 → (k, v) ∈ src →
  PyDict.get (fold_left (fun d kv => PyDict.set d kv.1 kv.2) src l) k = Some v.
Proof.
  revert l. induction src as [|[k0 v0] src IH]; intros l Hnd Hin; simpl.
  - inversion Hin.
  - simpl in Hnd. apply NoDup_cons in Hnd as [Hfresh Hnd].
    apply elem_of_cons in Hin as [[= -> ->]|Hin].
    + rewrite get_update_other, get_set, decide_True by auto. reflexivity.
    + apply IH; assumption.
Qed.
End UpdateFacts.

(** C10, as stated, fails for [update] on a dictionary in which the class
    of the key is registered: after [d["a"] = 1], copying the mapping of
    "a" to 2 into [d] is followed by a lookup of "a" that returns 2. *)
Lemma update_of_registered_key_is_found :
  ∃ d, IRCDict.__setitem__ (IRCDict.__init__ None) "a" 1 = Ok d
       ∧ IRCDict.__getitem__ (IRCDict.update d [("a", 2)]) "a" = Ok 2.
Proof. eexists. split; vm_compute; reflexivity. Qed.

(** C10, amended.  Let [src] be a mapping with the entry [k : v].
    - The dictionary built from [src] yields the entry on iteration, and
      looking [k] up in it raises [KeyError].
    - [update] with [src] leaves the canonical keys of the dictionary as
      they were; the result yields the entry on iteration, and looking
      [k] up in it raises [KeyError] if the class of [k] was not
      registered in the dictionary before. *)
Theorem update_registers_no_canonical_key {V : Type}
    (src : list (string * V)) (k : string) (v : V) :
  NoDup src.*1 → (k, v) ∈ src →
  ((k, v) ∈ IRCDict.items (IRCDict.__init__ (Some src))
   ∧ IRCDict.__getitem__ (IRCDict.__init__ (Some src)) k = Raise KeyError)
  ∧ ∀ d : IRCDict.t V,
      IRCDict.canon_keys (IRCDict.update d src) = IRCDict.canon_keys d
      ∧ (k, v) ∈ IRCDict.items (IRCDict.update d src)
      ∧ (IRCDict.has_key d k = false →
         IRCDict.__getitem__ (IRCDict.update d src) k = Raise KeyError).
Proof.
  intros Hnd Hin.
  assert (Hupd : ∀ d : IRCDict.t V,
             IRCDict.canon_keys (IRCDict.update d src) = IRCDict.canon_keys d
             ∧ (k, v) ∈ IRCDict.items (IRCDict.update d src)
             ∧ (IRCDict.has_key d k = false →
                IRCDict.__getitem__ (IRCDict.update d src) k = Raise KeyError)).
  { intros d. split; [reflexivity|]. split.
    - apply get_elem_of. unfold IRCDict.items, IRCDict.update. simpl.
      apply get_update; assumption.
    - unfold IRCDict.has_key, IRCDict.__getitem__. simpl.
      intros H%bool_decide_eq_false.
      destruct (IRCDict.canon_keys d !! irc_lower k); [exfalso; eauto | reflexivity]. }
  split; [|exact Hupd].
  destruct (Hupd {| IRCDict.data := []; IRCDict.canon_keys := ∅ |}) as (_ & Hit & Hget).
  split; [exact Hit|]. apply Hget. reflexivity.
Qed.

Lemma update_registers_no_canonical_key_witness :
  (("Alice", 1) ∈ IRCDict.items (IRCDict.__init__ (Some [("Alice", 1); ("bob", 2)]))
   ∧ IRCDict.__getitem__ (IRCDict.__init__ (Some [("Alice", 1); ("bob", 2)])) "Alice"
     = Raise KeyError)
  ∧ ∀ d : IRCDict.t Z,
      IRCDict.canon_keys (IRCDict.update d [("Alice", 1); ("bob", 2)])
      = IRCDict.canon_keys d
      ∧ ("Alice", 1) ∈ IRCDict.items (IRCDict.update d [("Alice", 1); ("bob", 2)])
      ∧ (IRCDict.has_key d "Alice" = false →
         IRCDict.__getitem__ (IRCDict.update d [("Alice", 1); ("bob", 2)]) "Alice"
         = Raise KeyError).
Proof.
  apply (update_registers_no_canonical_key [("Alice", 1); ("bob", 2)] "Alice" 1).
  - simpl. apply NoDup_cons. split; [|apply NoDup_singleton].
    intros H%list_elem_of_singleton. discriminate H.
  - apply list_elem_of_here.
Defined.

(** * Further properties of the code *)

(** ** The dictionary: invariant, deletion, frame *)

Section SoundFacts.
Context {V : Type}.
Implicit Types (d : IRCDict.t V) (a b k key : string) (v : V).

Lemma delitem_inv d key d' :
  IRCDict.__delitem__ d key = Ok d' →
  ∃ k, IRCDict.canon_keys d !! irc_lower key = Some k
       ∧ IRCDict.__contains__ d k = true
       ∧ d' = {| IRCDict.data := filter (fun p => p.1 ≠ k) (IRCDict.data d);
                 IRCDict.canon_keys := delete (irc_lower key) (IRCDict.canon_keys d) |}.
Proof.
  unfold IRCDict.__delitem__, IRCDict.__contains__.
  destruct (IRCDict.canon_keys d !! irc_lower key) as [k|]; simpl; [|discriminate].
  destruct (PyDict.contains (IRCDict.data d) k) eqn:Hk.
  - rewrite (del_Some _ _ Hk). simpl. intros [= <-]. eauto.
  - rewrite (del_None _ _ Hk). discriminate.
Qed.

(** The only exception of the three mutators is [KeyError]. *)
Lemma delitem_raises d key e :
  IRCDict.__delitem__ d key = Raise e → e = KeyError.
Proof.
  unfold IRCDict.__delitem__.
  destruct (IRCDict.canon_keys d !! irc_lower key) as [k|]; simpl;
    [|congruence].
  destruct (PyDict.del (IRCDict.data d) k); simpl; congruence.
Qed.

Lemma setitem_raises d key v e :
  IRCDict.__setitem__ d key v = Raise e → e = KeyError.
Proof.
  unfold IRCDict.__setitem__.
  destruct (IRCDict.__contains__ d key); simpl; [|discriminate].
  destruct (IRCDict.__delitem__ d key) eqn:E; simpl; [discriminate|].
  intros [= <-]. eapply delitem_raises, E.
Qed.

Lemma delitem_keeps_sound d key d' :
  Inv.sound d = true → IRCDict.__delitem__ d key = Ok d' → Inv.sound d' = true.
Proof.
  intros Hs (k0 & Hk0 & Hin0 & ->)%delitem_inv.
  pose proof (proj1 (sound_spec d) Hs) as Hs'.
  apply sound_spec. intros ck k. simpl. intros [Hne Hck]%lookup_delete_Some.
  destruct (Hs' _ _ Hck) as [Hl Hk]. split; [assumption|].
  unfold IRCDict.__contains__ in *. simpl. rewrite contains_without, Hk.
  rewrite bool_decide_eq_false_2; [reflexivity|].
  intros <-. destruct (Hs' _ _ Hk0). congruence.
Qed.

Lemma setitem_keeps_sound d key v d' :
  Inv.sound d = true → IRCDict.__setitem__ d key v = Ok d' → Inv.sound d' = true.
Proof.
  intros Hs. unfold IRCDict.__setitem__.
  assert (∀ d1, (if IRCDict.__contains__ d key
                 then IRCDict.__delitem__ d key else Ok d) = Ok d1 →
                Inv.sound d1 = true) as H1.
  { intros d1. destruct (IRCDict.__contains__ d key).
    - apply delitem_keeps_sound, Hs.
    - intros [= <-]. exact Hs. }
  destruct (if IRCDict.__contains__ d key then _ else _) as [d1|]; simpl;
    [|discriminate].
  intros [= <-]. pose proof (proj1 (sound_spec d1) (H1 d1 eq_refl)) as Hs1.
  apply sound_spec. intros ck k. simpl.
  unfold IRCDict.__contains__ in *. simpl. rewrite contains_set.
  intros [[<- <-]|[Hne Hck]]%lookup_insert_Some.
  - split; [reflexivity|]. rewrite bool_decide_eq_true_2; reflexivity.
  - destruct (Hs1 _ _ Hck) as [Hl ->]. split; [assumption | apply orb_true_r].
Qed.

Lemma contains_update (src l : list (string * V)) k :
  PyDict.contains l k = true →
  PyDict.contains (fold_left (fun acc kv => PyDict.set acc kv.1 kv.2) src l) k
  = true.
Proof.
  revert l. induction src as [|[k0 v0] src IH]; intros l Hk; simpl; [assumption|].
  apply IH. rewrite contains_set, Hk. apply orb_true_r.
Qed.

Lemma update_keeps_sound d (src : list (string * V)) :
  Inv.sound d = true → Inv.sound (IRCDict.update d src) = true.
Proof.
  intros Hs. pose proof (proj1 (sound_spec d) Hs) as Hs'.
  apply sound_spec. intros ck k. simpl. intros Hck.
  destruct (Hs' _ _ Hck) as [Hl Hk]. split; [assumption|].
  unfold IRCDict.__contains__ in *. simpl. apply contains_update, Hk.
Qed.

(** Looking up a key of another class than the deleted one. *)
Lemma getitem_delitem_other d a b d' :
  Inv.sound d = true → irc_lower a ≠ irc_lower b →
  IRCDict.__delitem__ d a = Ok d' →
  IRCDict.__getitem__ d' b = IRCDict.__getitem__ d b.
Proof.
  intros Hs Hne (k0 & Hk0 & Hin0 & ->)%delitem_inv.
  pose proof (proj1 (sound_spec d) Hs) as Hs'.
  unfold IRCDict.__getitem__. simpl. rewrite lookup_delete_ne by assumption.
  destruct (IRCDict.canon_keys d !! irc_lower b) as [k|] eqn:Hk; simpl;
    [|reflexivity].
  rewrite get_without, decide_False; [reflexivity|].
  intros <-. destruct (Hs' _ _ Hk0), (Hs' _ _ Hk). congruence.
Qed.
End SoundFacts.

(** X1.  Every canonical key of a dictionary built by the constructor
    leads to a stored key of its own class, and [__setitem__],
    [__delitem__], [update] and [clear] keep it so. *)
Theorem sound_is_invariant {V : Type} (d : IRCDict.t V) :
  (∀ src, Inv.sound (IRCDict.__init__ (V := V) src) = true)
  ∧ (Inv.sound d = true →
     (∀ key v d', IRCDict.__setitem__ d key v = Ok d' → Inv.sound d' = true)
     ∧ (∀ key d', IRCDict.__delitem__ d key = Ok d' → Inv.sound d' = true)
     ∧ (∀ src, Inv.sound (IRCDict.update d src) = true)
     ∧ Inv.sound (IRCDict.clear d) = true).
Proof.
  split.
  - intros [src|]; [|reflexivity].
    apply (update_keeps_sound {| IRCDict.data := []; IRCDict.canon_keys := ∅ |}).
    reflexivity.
  - intros Hs. split; [|split; [|split]].
    + intros key v d'. apply setitem_keeps_sound, Hs.
    + intros key d'. apply delitem_keeps_sound, Hs.
    + intros src. apply update_keeps_sound, Hs.
    + reflexivity.
Qed.

Lemma sound_is_invariant_witness :
  (∀ key v d', IRCDict.__setitem__ (Channel.userdict Sample.alice_oper) key v = Ok d'
               → Inv.sound d' = true)
  ∧ (∀ key d', IRCDict.__delitem__ (Channel.userdict Sample.alice_oper) key = Ok d'
               → Inv.sound d' = true)
  ∧ (∀ src, Inv.sound (IRCDict.update (Channel.userdict Sample.alice_oper) src) = true)
  ∧ Inv.sound (IRCDict.clear (Channel.userdict Sample.alice_oper)) = true.
Proof.
  apply (proj2 (sound_is_invariant (Channel.userdict Sample.alice_oper))).
  vm_compute. reflexivity.
Defined.

(** X2.  After [del d[key]] has succeeded, no spelling [b] of the class of
    [key] is found any more: [has_key] answers [False], and both
    [__getitem__] and a second [__delitem__] raise [KeyError]. *)
Theorem delitem_unregisters_class {V : Type} (d d' : IRCDict.t V)
    (key b : string) :
  IRCDict.__delitem__ d key = Ok d' → irc_lower b = irc_lower key →
  IRCDict.has_key d' b = false
  ∧ IRCDict.__getitem__ d' b = Raise KeyError
  ∧ IRCDict.__delitem__ d' b = Raise KeyError.
Proof.
  intros (k & _ & _ & ->)%delitem_inv Hb.
  unfold IRCDict.has_key, IRCDict.__getitem__, IRCDict.__delitem__. simpl.
  rewrite Hb, lookup_delete_eq. simpl. split; [|split]; reflexivity.
Qed.

Lemma delitem_unregisters_class_witness :
  IRCDict.has_key (IRCDict.__init__ (V := Z) None) "Alice" = false
  ∧ IRCDict.__getitem__ (IRCDict.__init__ (V := Z) None) "Alice" = Raise KeyError
  ∧ IRCDict.__delitem__ (IRCDict.__init__ (V := Z) None) "Alice" = Raise KeyError.
Proof.
  apply (delitem_unregisters_class (Channel.userdict Sample.alice_oper)
           (IRCDict.__init__ None) "ALICE" "Alice");
    vm_compute; reflexivity.
Defined.

(** X3.  In a sound dictionary, storing or deleting under a key [a] does
    not change what a lookup of a key [b] of another class gives. *)
Theorem other_class_is_untouched {V : Type} (d d' : IRCDict.t V)
    (a b : string) (v : V) :
  Inv.sound d = true → irc_lower a ≠ irc_lower b →
  (IRCDict.__setitem__ d a v = Ok d' →
   IRCDict.__getitem__ d' b = IRCDict.__getitem__ d b)
  ∧ (IRCDict.__delitem__ d a = Ok d' →
     IRCDict.__getitem__ d' b = IRCDict.__getitem__ d b).
Proof.
  intros Hs Hne. split; [|apply getitem_delitem_other; assumption].
  unfold IRCDict.__setitem__.
  assert (∀ d1, (if IRCDict.__contains__ d a
                 then IRCDict.__delitem__ d a else Ok d) = Ok d1 →
                Inv.sound d1 = true
                ∧ IRCDict.__getitem__ d1 b = IRCDict.__getitem__ d b) as H1.
  { intros d1. destruct (IRCDict.__contains__ d a).
    - intros E. split; [eapply delitem_keeps_sound; eassumption|].
      eapply getitem_delitem_other; eassumption.
    - intros [= <-]. auto. }
  destruct (if IRCDict.__contains__ d a then _ else _) as [d1|]; simpl;
    [|discriminate].
  destruct (H1 d1 eq_refl) as [Hs1 <-]. intros [= <-].
  pose proof (proj1 (sound_spec d1) Hs1) as Hs1'.
  unfold IRCDict.__getitem__. simpl. rewrite lookup_insert_ne by assumption.
  destruct (IRCDict.canon_keys d1 !! irc_lower b) as [k|] eqn:Hk; simpl;
    [|reflexivity].
  rewrite get_set, decide_False; [reflexivity|].
  intros <-. destruct (Hs1' _ _ Hk). congruence.
Qed.

Lemma other_class_is_untouched_witness :
  IRCDict.__getitem__
    (Sample.value (IRCDict.__init__ None)
       (IRCDict.__setitem__ (Channel.userdict Sample.alice_oper) "Bob" 1)) "ALICE"
  = IRCDict.__getitem__ (Channel.userdict Sample.alice_oper) "ALICE"
  ∧ IRCDict.__getitem__
      (Sample.value (IRCDict.__init__ None)
         (IRCDict.__delitem__ (Channel.userdict Sample.alice_oper) "Alice")) "Bob"
    = IRCDict.__getitem__ (Channel.userdict Sample.alice_oper) "Bob".
Proof.
  split.
  - apply (proj1 (other_class_is_untouched (Channel.userdict Sample.alice_oper)
                    (Sample.value (IRCDict.__init__ None)
                       (IRCDict.__setitem__ (Channel.userdict Sample.alice_oper)
                          "Bob" 1))
                    "Bob" "ALICE" 1 eq_refl ltac:(vm_compute; discriminate))).
    vm_compute. reflexivity.
  - apply (proj2 (other_class_is_untouched (Channel.userdict Sample.alice_oper)
                    (Sample.value (IRCDict.__init__ None)
                       (IRCDict.__delitem__ (Channel.userdict Sample.alice_oper)
                          "Alice"))
                    "Alice" "Bob" 1 eq_refl ltac:(vm_compute; discriminate))).
    vm_compute. reflexivity.
Defined.

(** X4.  In a sound dictionary [has_key] tells whether a lookup succeeds:
    it is [True] exactly for the keys that [__getitem__] finds a value
    for. *)
Theorem has_key_iff_getitem {V : Type} (d : IRCDict.t V) (key : string) :
  Inv.sound d = true →
  IRCDict.has_key d key = true ↔ ∃ v, IRCDict.__getitem__ d key = Ok v.
Proof.
  intros Hs. pose proof (proj1 (sound_spec d) Hs) as Hs'.
  unfold IRCDict.has_key, IRCDict.__getitem__. rewrite bool_decide_eq_true.
  split.
  - intros [k Hk]. rewrite Hk. simpl. destruct (Hs' _ _ Hk) as [_ Hin].
    unfold IRCDict.__contains__, PyDict.contains in Hin.
    destruct (PyDict.get (IRCDict.data d) k) as [v|]; [|discriminate].
    exists v. reflexivity.
  - intros [v Hv]. destruct (IRCDict.canon_keys d !! irc_lower key);
      [eauto | discriminate].
Qed.

Lemma has_key_iff_getitem_witness :
  IRCDict.has_key (Channel.userdict Sample.alice_oper) "ALICE" = true
  ↔ ∃ v, IRCDict.__getitem__ (Channel.userdict Sample.alice_oper) "ALICE" = Ok v.
Proof.
  apply (has_key_iff_getitem (Channel.userdict Sample.alice_oper) "ALICE").
  vm_compute. reflexivity.
Defined.

(** X5.  A dictionary built from a mapping with the entry [k : v] holds
    the entry ([k in d] is true and [d.get(k)] is [v]), but neither
    assigning to [d[k]] nor deleting [d[k]] is possible: both raise
    [KeyError]. *)
Theorem built_from_mapping_is_frozen {V : Type} (src : list (string * V))
    (k : string) (v v' : V) :
  NoDup src.*1 → (k, v) ∈ src →
  IRCDict.__contains__ (IRCDict.__init__ (Some src)) k = true
  ∧ IRCDict.get (IRCDict.__init__ (Some src)) k None = Some v
  ∧ IRCDict.__setitem__ (IRCDict.__init__ (Some src)) k v' = Raise KeyError
  ∧ IRCDict.__delitem__ (IRCDict.__init__ (Some src)) k = Raise KeyError.
Proof.
  intros Hnd Hin.
  assert (PyDict.get (IRCDict.data (IRCDict.__init__ (Some src))) k = Some v)
    as Hget by (apply get_update; assumption).
  assert (IRCDict.__contains__ (IRCDict.__init__ (Some src)) k = true) as Hc
    by (unfold IRCDict.__contains__, PyDict.contains; rewrite Hget; reflexivity).
  assert (IRCDict.__delitem__ (IRCDict.__init__ (Some src)) k = Raise KeyError)
    as Hdel by reflexivity.
  split; [exact Hc|]. split.
  - unfold IRCDict.get. rewrite Hget. reflexivity.
  - split; [|exact Hdel]. unfold IRCDict.__setitem__. rewrite Hc, Hdel. reflexivity.
Qed.

Lemma built_from_mapping_is_frozen_witness :
  IRCDict.__contains__ (IRCDict.__init__ (Some [("Alice", 1); ("bob", 2)])) "bob" = true
  ∧ IRCDict.get (IRCDict.__init__ (Some [("Alice", 1); ("bob", 2)])) "bob" None = Some 2
  ∧ IRCDict.__setitem__ (IRCDict.__init__ (Some [("Alice", 1); ("bob", 2)])) "bob" 3
    = Raise KeyError
  ∧ IRCDict.__delitem__ (IRCDict.__init__ (Some [("Alice", 1); ("bob", 2)])) "bob"
    = Raise KeyError.
Proof.
  apply (built_from_mapping_is_frozen [("Alice", 1); ("bob", 2)] "bob" 2 3).
  - simpl. apply NoDup_cons. split; [|apply NoDup_singleton].
    intros H%list_elem_of_singleton. discriminate H.
  - apply list_elem_of_further, list_elem_of_here.
Defined.

(** ** The channel: repeated and inverse calls *)

Section OrderFacts.
Context {V : Type}.
Implicit Types (l : list (string * V)) (d : IRCDict.t V) (k key : string) (v : V).

Lemma set_fresh l key v :
  PyDict.contains l key = false → PyDict.set l key v = (l ++ [(key, v)])%list.
Proof.
  unfold PyDict.contains. induction l as [|[k0 v0] l IH]; simpl; [reflexivity|].
  destruct (decide (k0 = key)); [discriminate|]. intros H. rewrite IH; auto.
Qed.

Lemma without_fresh l key :
  PyDict.contains l key = false → filter (fun p => p.1 ≠ key) l = l.
Proof.
  unfold PyDict.contains. induction l as [|[k0 v0] l IH]; simpl; [reflexivity|].
  destruct (decide (k0 = key)); [discriminate|]. intros H.
  rewrite filter_cons, decide_True by assumption. rewrite IH; auto.
Qed.

Lemma without_snoc l key v :
  filter (fun p => p.1 ≠ key) (l ++ [(key, v)])%list
  = filter (fun p => p.1 ≠ key) l.
Proof.
  rewrite filter_app, filter_cons, decide_False by (simpl; auto).
  apply app_nil_r.
Qed.

Lemma without_without l key :
  filter (fun p => p.1 ≠ key) (filter (fun p => p.1 ≠ key) l)
  = filter (fun p => p.1 ≠ key) l.
Proof. apply list_filter_filter_l. auto. Qed.

(** The canonical keys after a successful [__setitem__]. *)
Lemma setitem_canon_keys d key v d' :
  IRCDict.__setitem__ d key v = Ok d' →
  IRCDict.canon_keys d' = <[irc_lower key := key]> (IRCDict.canon_keys d).
Proof.
  unfold IRCDict.__setitem__. destruct (IRCDict.__contains__ d key).
  - destruct (IRCDict.__delitem__ d key) as [d1|] eqn:E; simpl; [|discriminate].
    apply delitem_inv in E as (k & _ & _ & ->). intros [= <-]. simpl.
    apply insert_delete_eq.
  - simpl. intros [= <-]. reflexivity.
Qed.

(** [d[key] = v] when [key] is not stored or is the canonical key of its
    class: the entry goes last, whether it was stored or not. *)
Lemma setitem_canonical d key v :
  IRCDict.__contains__ d key = false
  ∨ IRCDict.canon_keys d !! irc_lower key = Some key →
  IRCDict.__setitem__ d key v
  = Ok {| IRCDict.data :=
            (filter (fun p => p.1 ≠ key) (IRCDict.data d) ++ [(key, v)])%list;
          IRCDict.canon_keys := <[irc_lower key := key]> (IRCDict.canon_keys d) |}.
Proof.
  intros Hcase. destruct (IRCDict.__contains__ d key) eqn:Hin.
  - destruct Hcase as [?|Hreg]; [discriminate|].
    unfold IRCDict.__setitem__. rewrite Hin.
    rewrite (delitem_registered d key key Hreg Hin). simpl.
    rewrite set_fresh, insert_delete_eq; [reflexivity|].
    rewrite contains_without, bool_decide_eq_true_2; reflexivity.
  - rewrite (setitem_new d key v Hin).
    unfold IRCDict.__contains__ in Hin.
    rewrite (set_fresh _ _ _ Hin), (without_fresh _ _ Hin). reflexivity.
Qed.

Lemma setitem_twice d key v :
  IRCDict.__contains__ d key = false
  ∨ IRCDict.canon_keys d !! irc_lower key = Some key →
  ∃ d1, IRCDict.__setitem__ d key v = Ok d1
        ∧ IRCDict.__setitem__ d1 key v = Ok d1
        ∧ IRCDict.__contains__ d1 key = true.
Proof.
  intros Hcase. rewrite (setitem_canonical d key v Hcase).
  eexists. split; [reflexivity|]. split.
  - rewrite setitem_canonical; simpl.
    + rewrite without_snoc, without_without, insert_insert_eq. reflexivity.
    + right. apply lookup_insert_eq.
  - unfold IRCDict.__contains__, PyDict.contains. simpl.
    rewrite get_app. simpl. rewrite decide_True by reflexivity.
    destruct (PyDict.get _ key); reflexivity.
Qed.
End OrderFacts.

(** X6.  On a channel with well-formed dictionaries [remove_user] raises
    nothing, leaves the nick in none of the three dictionaries, and
    removing the nick a second time changes nothing. *)
Theorem remove_user_twice (ch : Channel.t) (nick : string) :
  Inv.channel_wf ch = true →
  ∃ ch1, Channel.remove_user ch nick = Ok ch1
         ∧ Channel.remove_user ch1 nick = Ok ch1
         ∧ Channel.has_user ch1 nick = false
         ∧ Channel.is_oper ch1 nick = false
         ∧ Channel.is_voiced ch1 nick = false
         ∧ Inv.channel_wf ch1 = true.
Proof.
  intros (Hu & Ho & Hv)%channel_wf_spec.
  destruct (discard_wf _ nick Hu) as (u & Eu & Hwu & Hinu).
  destruct (discard_wf _ nick Ho) as (o & Eo & Hwo & Hino).
  destruct (discard_wf _ nick Hv) as (v & Ev & Hwv & Hinv).
  assert (IRCDict.__contains__ u nick = false) as Hun
    by (rewrite Hinu, bool_decide_eq_true_2; reflexivity).
  assert (IRCDict.__contains__ o nick = false) as Hon
    by (rewrite Hino, bool_decide_eq_true_2; reflexivity).
  assert (IRCDict.__contains__ v nick = false) as Hvn
    by (rewrite Hinv, bool_decide_eq_true_2; reflexivity).
  unfold Channel.remove_user. rewrite Eu, Eo, Ev. simpl.
  eexists. split; [reflexivity|]. simpl.
  unfold Channel.discard, Channel.has_user, Channel.is_oper, Channel.is_voiced.
  simpl. rewrite Hun, Hon, Hvn. simpl.
  repeat split. apply channel_wf_spec. simpl. auto.
Qed.

Lemma remove_user_twice_witness :
  ∃ ch1, Channel.remove_user Sample.alice_oper "alice" = Ok ch1
         ∧ Channel.remove_user ch1 "alice" = Ok ch1
         ∧ Channel.has_user ch1 "alice" = false
         ∧ Channel.is_oper ch1 "alice" = false
         ∧ Channel.is_voiced ch1 "alice" = false
         ∧ Inv.channel_wf ch1 = true.
Proof.
  apply (remove_user_twice Sample.alice_oper "alice"). vm_compute. reflexivity.
Defined.

(** X7.  When every member is the canonical key of its class, [add_user]
    raises nothing for any nick, makes the nick a member, and adding the
    nick a second time changes nothing, not even the order of the
    members. *)
Theorem add_user_twice (ch : Channel.t) (nick : string) :
  Inv.complete (Channel.userdict ch) = true →
  ∃ ch1, Channel.add_user ch nick = Ok ch1
         ∧ Channel.add_user ch1 nick = Ok ch1
         ∧ Channel.has_user ch1 nick = true.
Proof.
  intros Hc. pose proof (proj1 (complete_spec _) Hc nick) as Hc'.
  destruct (setitem_twice (Channel.userdict ch) nick 1) as (d1 & E1 & E2 & Hin).
  { destruct (IRCDict.__contains__ (Channel.userdict ch) nick); auto. }
  unfold Channel.add_user. rewrite E1. simpl. eexists. split; [reflexivity|].
  simpl. rewrite E2. simpl. split; [reflexivity | exact Hin].
Qed.

Lemma add_user_twice_witness :
  ∃ ch1, Channel.add_user Sample.alice_oper "Alice" = Ok ch1
         ∧ Channel.add_user ch1 "Alice" = Ok ch1
         ∧ Channel.has_user ch1 "Alice" = true.
Proof.
  apply (add_user_twice Sample.alice_oper "Alice"). vm_compute. reflexivity.
Defined.

Section InverseFacts.
Context {V : Type}.
Implicit Types (d : IRCDict.t V) (b key : string) (v : V).

(** Storing under a key of an unregistered class and deleting under any
    spelling of that class gives the dictionary back. *)
Lemma setitem_then_delitem d key b v :
  IRCDict.__contains__ d key = false →
  IRCDict.canon_keys d !! irc_lower key = None →
  irc_lower b = irc_lower key →
  ∃ d1, IRCDict.__setitem__ d key v = Ok d1
        ∧ IRCDict.__contains__ d1 key = true
        ∧ IRCDict.__delitem__ d1 b = Ok d.
Proof.
  intros Hin Hreg Hb. rewrite (setitem_new d key v Hin).
  eexists. split; [reflexivity|].
  assert (PyDict.contains (PyDict.set (IRCDict.data d) key v) key = true) as Hin1
    by (rewrite contains_set, bool_decide_eq_true_2; reflexivity).
  split; [exact Hin1|].
  rewrite (delitem_registered _ b key).
  - simpl. unfold IRCDict.__contains__ in Hin.
    rewrite (set_fresh _ _ _ Hin), without_snoc, (without_fresh _ _ Hin).
    rewrite Hb, (delete_insert_id _ _ _ Hreg). destruct d. reflexivity.
  - simpl. rewrite Hb. apply lookup_insert_eq.
  - exact Hin1.
Qed.
End InverseFacts.

(** X8.  For a letter other than o and v that is not set, [set_mode] sets
    it with its argument, which [limit] and [key] then return for the
    letters l and k, and a following [clear_mode], with whatever argument,
    gives back the channel as it was. *)
Theorem flag_set_then_cleared (ch : Channel.t) (mode : string)
    (value value' : option string) :
  mode ≠ "o" → mode ≠ "v" → Channel.has_mode ch mode = false →
  ∃ ch1, Channel.set_mode ch mode value = Ok ch1
         ∧ Channel.has_mode ch1 mode = true
         ∧ (mode = "l" → Channel.limit ch1 = value)
         ∧ (mode = "k" → Channel.key ch1 = value)
         ∧ Channel.clear_mode ch1 mode value' = Ok ch.
Proof.
  intros Ho Hv Hunset. unfold Channel.set_mode.
  rewrite !decide_False by assumption. eexists. split; [reflexivity|].
  assert (Channel.modes ch !! mode = None) as Hnone.
  { unfold Channel.has_mode in Hunset. apply bool_decide_eq_false in Hunset.
    destruct (Channel.modes ch !! mode); [exfalso; eauto | reflexivity]. }
  split; [|split; [|split]].
  - unfold Channel.has_mode. simpl. rewrite lookup_insert_eq.
    apply bool_decide_eq_true. eauto.
  - intros ->. unfold Channel.limit, Channel.has_limit, Channel.has_mode. simpl.
    rewrite lookup_insert_eq. rewrite bool_decide_eq_true_2 by eauto. reflexivity.
  - intros ->. unfold Channel.key, Channel.has_key, Channel.has_mode. simpl.
    rewrite lookup_insert_eq. rewrite bool_decide_eq_true_2 by eauto. reflexivity.
  - unfold Channel.clear_mode, Channel.clear_mode_try.
    rewrite !decide_False by assumption. simpl. rewrite lookup_insert_eq. simpl.
    rewrite (delete_insert_id _ _ _ Hnone). destruct ch. reflexivity.
Qed.

Lemma flag_set_then_cleared_witness :
  ∃ ch1, Channel.set_mode Sample.alice_oper "l" (Some "10") = Ok ch1
         ∧ Channel.has_mode ch1 "l" = true
         ∧ ("l" = "l" → Channel.limit ch1 = Some "10")
         ∧ ("l" = "k" → Channel.key ch1 = Some "10")
         ∧ Channel.clear_mode ch1 "l" None = Ok Sample.alice_oper.
Proof.
  apply (flag_set_then_cleared Sample.alice_oper "l" (Some "10") None);
    [discriminate | discriminate | vm_compute; reflexivity].
Defined.

(** X9.  When a sound operator (voiced) dictionary stores no key
    equivalent to [nick], [set_mode] with o (v) makes [nick] an operator
    (voiced), and a following [clear_mode] with any spelling [nick'] of
    the class of [nick] gives back the channel as it was. *)
Theorem status_set_then_cleared (ch : Channel.t) (nick nick' : string) :
  irc_lower nick' = irc_lower nick →
  (Inv.sound (Channel.operdict ch) = true →
   Inv.absent (Channel.operdict ch) nick = true →
   ∃ ch1, Channel.set_mode ch "o" (Some nick) = Ok ch1
          ∧ Channel.is_oper ch1 nick = true
          ∧ Channel.clear_mode ch1 "o" (Some nick') = Ok ch)
  ∧ (Inv.sound (Channel.voiceddict ch) = true →
     Inv.absent (Channel.voiceddict ch) nick = true →
     ∃ ch1, Channel.set_mode ch "v" (Some nick) = Ok ch1
            ∧ Channel.is_voiced ch1 nick = true
            ∧ Channel.clear_mode ch1 "v" (Some nick') = Ok ch).
Proof.
  intros Heq.
  assert (∀ d : IRCDict.t Z, Inv.sound d = true → Inv.absent d nick = true →
            ∃ d1, IRCDict.__setitem__ d nick 1 = Ok d1
                  ∧ IRCDict.__contains__ d1 nick = true
                  ∧ IRCDict.__delitem__ d1 nick' = Ok d) as Hdict.
  { intros d Hs Ha. apply setitem_then_delitem; [|apply sound_absent|]; try assumption.
    destruct (IRCDict.__contains__ d nick) eqn:Hin; [|reflexivity].
    exfalso. exact (proj1 (absent_spec d nick) Ha nick Hin eq_refl). }
  split; intros Hs Ha; destruct (Hdict _ Hs Ha) as (d1 & E1 & Hin & E2).
  - unfold Channel.set_mode. rewrite decide_True by reflexivity. simpl.
    rewrite E1. simpl. eexists. split; [reflexivity|]. split; [exact Hin|].
    unfold Channel.clear_mode, Channel.clear_mode_try.
    rewrite decide_True by reflexivity. simpl. rewrite E2. simpl.
    destruct ch. reflexivity.
  - unfold Channel.set_mode. rewrite decide_False by discriminate.
    rewrite decide_True by reflexivity. simpl.
    rewrite E1. simpl. eexists. split; [reflexivity|]. split; [exact Hin|].
    unfold Channel.clear_mode, Channel.clear_mode_try.
    rewrite decide_False by discriminate. rewrite decide_True by reflexivity.
    simpl. rewrite E2. simpl. destruct ch. reflexivity.
Qed.

Lemma status_set_then_cleared_witness :
  (∃ ch1, Channel.set_mode Sample.alice_oper "o" (Some "Bob") = Ok ch1
          ∧ Channel.is_oper ch1 "Bob" = true
          ∧ Channel.clear_mode ch1 "o" (Some "BOB") = Ok Sample.alice_oper)
  ∧ (∃ ch1, Channel.set_mode Sample.alice_oper "v" (Some "Bob") = Ok ch1
            ∧ Channel.is_voiced ch1 "Bob" = true
            ∧ Channel.clear_mode ch1 "v" (Some "BOB") = Ok Sample.alice_oper).
Proof.
  pose proof (status_set_then_cleared Sample.alice_oper "Bob" "BOB") as H.
  destruct H as [Ho Hv]; [vm_compute; reflexivity|].
  split; [apply Ho | apply Hv]; vm_compute; reflexivity.
Defined.

(** X10.  Renaming a nick whose class is not registered among the members
    to a nick of another class raises [KeyError]. *)
Theorem change_nick_of_stranger (ch : Channel.t) (before after : string) :
  IRCDict.has_key (Channel.userdict ch) before = false →
  irc_lower before ≠ irc_lower after →
  Channel.change_nick ch before after = Raise KeyError.
Proof.
  intros Hreg Hne. unfold Channel.change_nick, Channel.rekey.
  destruct (IRCDict.__setitem__ (Channel.userdict ch) after 1) as [d1|e] eqn:E;
    simpl.
  - rewrite delitem_unregistered; [reflexivity|].
    rewrite (setitem_canon_keys _ _ _ _ E), lookup_insert_ne by congruence.
    unfold IRCDict.has_key in Hreg. apply bool_decide_eq_false in Hreg.
    destruct (_ !! _); [exfalso; eauto | reflexivity].
  - apply setitem_raises in E as ->. reflexivity.
Qed.

Lemma change_nick_of_stranger_witness :
  Channel.change_nick Sample.alice_oper "bob" "robert" = Raise KeyError.
Proof.
  apply (change_nick_of_stranger Sample.alice_oper "bob" "robert");
    vm_compute; [reflexivity | discriminate].
Defined.

(** What [d[after] = 1; del d[before]] stores afterwards. *)
Lemma rekey_contains (d : IRCDict.t Z) (before after : string) :
  Inv.wf d = true → IRCDict.__contains__ d before = true →
  irc_lower before ≠ irc_lower after →
  ∃ d', Channel.rekey d before after = Ok d'
        ∧ ∀ k, IRCDict.__contains__ d' k
               = negb (bool_decide (before = k))
                 && (bool_decide (after = k) || IRCDict.__contains__ d k).
Proof.
  intros Hwf Hb Hne. unfold Channel.rekey.
  destruct (IRCDict.__contains__ d after) eqn:Ha.
  - destruct (setitem_wf d after 1 Hwf (or_introl Ha)) as (d1 & E1 & Hwf1 & Hin1).
    rewrite E1. simpl.
    destruct (delitem_wf d1 before Hwf1) as (d2 & E2 & _ & Hin2).
    { rewrite Hin1, Hb. apply orb_true_r. }
    exists d2. split; [exact E2|]. intros k. rewrite Hin2, Hin1. reflexivity.
  - rewrite (setitem_new d after 1 Ha). simpl.
    apply wf_spec in Hwf as [_ Hc].
    pose proof (proj1 (complete_spec d) Hc before Hb) as Hreg.
    erewrite (delitem_registered _ before before).
    + eexists. split; [reflexivity|]. intros k.
      unfold IRCDict.__contains__. simpl.
      rewrite contains_without, contains_set. reflexivity.
    + simpl. rewrite lookup_insert_ne by congruence. exact Hreg.
    + unfold IRCDict.__contains__ in *. simpl. rewrite contains_set, Hb.
      apply orb_true_r.
Qed.

(** X11.  In a channel with well-formed dictionaries, renaming a stored
    member to a nick of another class raises nothing; every third nick
    keeps its membership and status, the new nick is a member, it is an
    operator (voiced) if the old or the new nick was one before, the old
    nick is gone, and the modes are as before. *)
Theorem change_nick_frame (ch : Channel.t) (before after : string) :
  Inv.channel_wf ch = true → Channel.has_user ch before = true →
  irc_lower before ≠ irc_lower after →
  ∃ ch', Channel.change_nick ch before after = Ok ch'
         ∧ (∀ k, k ≠ before → k ≠ after →
              Channel.has_user ch' k = Channel.has_user ch k
              ∧ Channel.is_oper ch' k = Channel.is_oper ch k
              ∧ Channel.is_voiced ch' k = Channel.is_voiced ch k)
         ∧ Channel.has_user ch' after = true
         ∧ Channel.is_oper ch' after
           = Channel.is_oper ch before || Channel.is_oper ch after
         ∧ Channel.is_voiced ch' after
           = Channel.is_voiced ch before || Channel.is_voiced ch after
         ∧ Channel.has_user ch' before = false
         ∧ Channel.is_oper ch' before = false
         ∧ Channel.is_voiced ch' before = false
         ∧ Channel.modes ch' = Channel.modes ch.
Proof.
  intros (Hu & Ho & Hv)%channel_wf_spec Hmem Hne.
  assert (before ≠ after) as Hne' by congruence.
  assert (∀ d : IRCDict.t Z, Inv.wf d = true →
            ∃ d', (if IRCDict.__contains__ d before
                   then Channel.rekey d before after else Ok d) = Ok d'
                  ∧ (∀ k, k ≠ before → k ≠ after →
                       IRCDict.__contains__ d' k = IRCDict.__contains__ d k)
                  ∧ IRCDict.__contains__ d' after
                    = IRCDict.__contains__ d before || IRCDict.__contains__ d after
                  ∧ IRCDict.__contains__ d' before = false) as Hstatus.
  { intros d Hwf. destruct (IRCDict.__contains__ d before) eqn:Hb.
    - destruct (rekey_contains d before after Hwf Hb Hne) as (d' & E & Hin).
      exists d'. split; [exact E|]. split; [|split].
      + intros k H1 H2. rewrite Hin, !bool_decide_eq_false_2 by congruence.
        reflexivity.
      + rewrite Hin, bool_decide_eq_false_2, bool_decide_eq_true_2 by congruence.
        reflexivity.
      + rewrite Hin, bool_decide_eq_true_2 by reflexivity. reflexivity.
    - exists d. split; [reflexivity|]. auto. }
  unfold Channel.has_user in Hmem.
  destruct (Hstatus _ Hu) as (u & Eu & Hu3 & Hua & Hub). rewrite Hmem in Eu, Hua.
  destruct (Hstatus _ Ho) as (o & Eo & Ho3 & Hoa & Hob).
  destruct (Hstatus _ Hv) as (v & Ev & Hv3 & Hva & Hvb).
  unfold Channel.change_nick. rewrite Eu. simpl. rewrite Eo. simpl.
  rewrite Ev. simpl. eexists. split; [reflexivity|].
  unfold Channel.has_user, Channel.is_oper, Channel.is_voiced. simpl.
  repeat split; auto.
Qed.

Lemma change_nick_frame_witness :
  ∃ ch', Channel.change_nick Sample.alice_oper "alice" "carol" = Ok ch'
         ∧ (∀ k, k ≠ "alice" → k ≠ "carol" →
              Channel.has_user ch' k = Channel.has_user Sample.alice_oper k
              ∧ Channel.is_oper ch' k = Channel.is_oper Sample.alice_oper k
              ∧ Channel.is_voiced ch' k = Channel.is_voiced Sample.alice_oper k)
         ∧ Channel.has_user ch' "carol" = true
         ∧ Channel.is_oper ch' "carol"
           = Channel.is_oper Sample.alice_oper "alice"
             || Channel.is_oper Sample.alice_oper "carol"
         ∧ Channel.is_voiced ch' "carol"
           = Channel.is_voiced Sample.alice_oper "alice"
             || Channel.is_voiced Sample.alice_oper "carol"
         ∧ Channel.has_user ch' "alice" = false
         ∧ Channel.is_oper ch' "alice" = false
         ∧ Channel.is_voiced ch' "alice" = false
         ∧ Channel.modes ch' = Channel.modes Sample.alice_oper.
Proof.
  apply (change_nick_frame Sample.alice_oper "alice" "carol");
    vm_compute; [reflexivity | reflexivity | discriminate].
Defined.

(** ** The handlers: joining, leaving, quitting, renaming *)


(** X12.  When the bot has no state for a channel, its own join creates
    one, and its own part, or a kick of its nickname, thereafter gives
    back the bot exactly as it was before the join. *)
Theorem own_join_then_leave (self : SingleServerIRCBot.t) (c : Connection)
    (e : Event) :
  IRCDict.has_key (SingleServerIRCBot.channels self) (target e) = false →
  IRCDict.__contains__ (SingleServerIRCBot.channels self) (target e) = false →
  nm_to_n (source e) = get_nickname c →
  ∃ joined, SingleServerIRCBot._on_join self c e = Ok joined
            ∧ IRCDict.has_key (SingleServerIRCBot.channels joined) (target e) = true
            ∧ SingleServerIRCBot._on_part joined c e = Ok self
            ∧ (arguments e !! 0%nat = Some (get_nickname c) →
               SingleServerIRCBot._on_kick joined c e = Ok self).
Proof.
  intros Hreg Hin Hown.
  assert (IRCDict.canon_keys (SingleServerIRCBot.channels self)
            !! irc_lower (target e) = None) as Hnone.
  { unfold IRCDict.has_key in Hreg. apply bool_decide_eq_false in Hreg.
    destruct (_ !! _); [exfalso; eauto | reflexivity]. }
  unfold SingleServerIRCBot._on_join. rewrite decide_True by assumption.
  rewrite (setitem_new _ _ _ Hin). simpl.
  unfold IRCDict.on_item. simpl. rewrite lookup_insert_eq. simpl.
  rewrite get_set, decide_True by reflexivity. simpl.
  eexists. split; [reflexivity|].
  assert (∀ chan chan',
    IRCDict.__delitem__
      {| IRCDict.data :=
           PyDict.set (PyDict.set (IRCDict.data (SingleServerIRCBot.channels self))
                         (target e) chan) (target e) chan';
         IRCDict.canon_keys :=
           <[irc_lower (target e) := target e]>
             (IRCDict.canon_keys (SingleServerIRCBot.channels self)) |} (target e)
    = Ok (SingleServerIRCBot.channels self)) as Hdel.
  { intros chan chan'. rewrite (delitem_registered _ _ (target e)).
    - simpl. unfold IRCDict.__contains__ in Hin.
      rewrite !without_set, (without_fresh _ _ Hin), (delete_insert_id _ _ _ Hnone).
      destruct (SingleServerIRCBot.channels self). reflexivity.
    - simpl. apply lookup_insert_eq.
    - unfold IRCDict.__contains__. simpl.
      rewrite !contains_set, bool_decide_eq_true_2; reflexivity. }
  split; [|split].
  - unfold IRCDict.has_key. simpl. rewrite lookup_insert_eq.
    apply bool_decide_eq_true. eauto.
  - unfold SingleServerIRCBot._on_part. rewrite decide_True by assumption.
    simpl. rewrite Hdel. simpl. destruct self. reflexivity.
  - intros Harg. unfold SingleServerIRCBot._on_kick. rewrite Harg. simpl.
    rewrite decide_True by reflexivity. rewrite Hdel. simpl.
    destruct self. reflexivity.
Qed.

Lemma own_join_then_leave_witness :
  ∃ joined, SingleServerIRCBot._on_join Sample.bot Sample.conn
              (Sample.event "bot!u@h" "#test" ["bot"]) = Ok joined
            ∧ IRCDict.has_key (SingleServerIRCBot.channels joined)
                (target (Sample.event "bot!u@h" "#test" ["bot"])) = true
            ∧ SingleServerIRCBot._on_part joined Sample.conn
                (Sample.event "bot!u@h" "#test" ["bot"]) = Ok Sample.bot
            ∧ (arguments (Sample.event "bot!u@h" "#test" ["bot"]) !! 0%nat
               = Some (get_nickname Sample.conn) →
               SingleServerIRCBot._on_kick joined Sample.conn
                 (Sample.event "bot!u@h" "#test" ["bot"]) = Ok Sample.bot).
Proof.
  apply (own_join_then_leave Sample.bot Sample.conn
           (Sample.event "bot!u@h" "#test" ["bot"])); vm_compute; reflexivity.
Defined.

Section VisitFacts.
Implicit Types (ch : Channel.t) (chans : IRCDict.t Channel.t)
  (l acc : list (string * Channel.t)) (nick : string).

(** [remove_user] on a channel with well-formed dictionaries. *)
Lemma remove_user_wf ch nick :
  Inv.channel_wf ch = true →
  ∃ ch1, Channel.remove_user ch nick = Ok ch1
         ∧ Inv.channel_wf ch1 = true
         ∧ Channel.modes ch1 = Channel.modes ch
         ∧ ∀ k, Channel.has_user ch1 k
                = negb (bool_decide (nick = k)) && Channel.has_user ch k
                ∧ Channel.is_oper ch1 k
                  = negb (bool_decide (nick = k)) && Channel.is_oper ch k
                ∧ Channel.is_voiced ch1 k
                  = negb (bool_decide (nick = k)) && Channel.is_voiced ch k.
Proof.
  intros (Hu & Ho & Hv)%channel_wf_spec.
  destruct (discard_wf _ nick Hu) as (u & Eu & Hwu & Hinu).
  destruct (discard_wf _ nick Ho) as (o & Eo & Hwo & Hino).
  destruct (discard_wf _ nick Hv) as (v & Ev & Hwv & Hinv).
  unfold Channel.remove_user. rewrite Eu, Eo, Ev. simpl.
  eexists. split; [reflexivity|]. split; [apply channel_wf_spec; simpl; auto|].
  split; [reflexivity|]. intros k.
  unfold Channel.has_user, Channel.is_oper, Channel.is_voiced. simpl. auto.
Qed.

(** The loop over the stored channels: if [body] succeeds on every one of
    them, the loop does, the names stay and each channel is replaced by
    what [body] makes of it. *)
Lemma on_values_Forall2 chans (body : Channel.t → result Channel.t)
    (R : Channel.t → Channel.t → Prop) :
  Forall (fun ch => ∃ ch', body ch = Ok ch' ∧ R ch ch') (IRCDict.values chans) →
  ∃ chans', SingleServerIRCBot.on_values chans body = Ok chans'
            ∧ IRCDict.keys chans' = IRCDict.keys chans
            ∧ IRCDict.canon_keys chans' = IRCDict.canon_keys chans
            ∧ Forall2 R (IRCDict.values chans) (IRCDict.values chans').
Proof.
  unfold SingleServerIRCBot.on_values, IRCDict.values, IRCDict.keys,
    PyDict.values, PyDict.keys.
  intros Hall.
  assert (∀ l acc,
    Forall (fun ch => ∃ ch', body ch = Ok ch' ∧ R ch ch') l.*2 →
    ∃ l', for_each (fun (acc : list (string * Channel.t)) kv =>
                      chan ← body kv.2; Ok (acc ++ [(kv.1, chan)])%list) l acc
          = Ok (acc ++ l')%list
          ∧ l'.*1 = l.*1 ∧ Forall2 R l.*2 l'.*2) as Hloop.
  { clear. induction l as [|[k ch] l IH]; intros acc Hl; simpl.
    - exists []. rewrite app_nil_r. auto.
    - simpl in Hl. apply Forall_cons in Hl as [(ch' & E & HR) Hl].
      rewrite E. simpl.
      destruct (IH (acc ++ [(k, ch')])%list Hl) as (l' & E' & Hk & Hv).
      exists ((k, ch') :: l'). rewrite E', <- app_assoc. simpl.
      split; [reflexivity|]. split; [f_equal; assumption|].
      constructor; assumption. }
  destruct (Hloop (IRCDict.data chans) [] Hall) as (l' & E & Hk & Hv).
  rewrite E. simpl. eexists. split; [reflexivity|]. simpl. auto.
Qed.

Lemma all_channels_spec (P : Channel.t → bool) (self : SingleServerIRCBot.t) :
  Scenario.all_channels P self = true ↔
  Forall (fun ch => P ch = true)
    (IRCDict.values (SingleServerIRCBot.channels self)).
Proof.
  unfold Scenario.all_channels. rewrite forallb_forall, Forall_forall.
  split; intros H ch Hch; apply H; apply list_elem_of_In; exact Hch.
Qed.
End VisitFacts.

(** X13.  When the dictionaries of every channel are well-formed, a quit
    raises nothing; the bot stays in the same channels, in each of them
    the nick that quit is no member any more, every other nick is a member
    exactly if it was one before, and the dictionaries are well-formed
    again. *)
Theorem quit_leaves_every_channel (self : SingleServerIRCBot.t)
    (c : Connection) (e : Event) :
  Scenario.all_channels Inv.channel_wf self = true →
  ∃ self', SingleServerIRCBot._on_quit self c e = Ok self'
           ∧ IRCDict.keys (SingleServerIRCBot.channels self')
             = IRCDict.keys (SingleServerIRCBot.channels self)
           ∧ Forall2 (fun ch ch' =>
                        Inv.channel_wf ch' = true
                        ∧ ∀ k, Channel.has_user ch' k
                               = negb (bool_decide (nm_to_n (source e) = k))
                                 && Channel.has_user ch k)
               (IRCDict.values (SingleServerIRCBot.channels self))
               (IRCDict.values (SingleServerIRCBot.channels self')).
Proof.
  intros Hall%all_channels_spec. unfold SingleServerIRCBot._on_quit.
  edestruct (on_values_Forall2 (SingleServerIRCBot.channels self))
    as (chans' & E & Hk & _ & Hv); [|rewrite E; simpl; eauto].
  eapply Forall_impl; [exact Hall|]. intros ch Hwf. simpl.
  destruct (Channel.has_user ch (nm_to_n (source e))) eqn:Hmem.
  - destruct (remove_user_wf ch (nm_to_n (source e)) Hwf) as (ch1 & E & Hwf1 & _ & Hin).
    exists ch1. split; [exact E|]. split; [exact Hwf1|]. intros k. apply Hin.
  - exists ch. split; [reflexivity|]. split; [exact Hwf|]. intros k.
    destruct (decide (nm_to_n (source e) = k)) as [<-|].
    + rewrite bool_decide_eq_true_2, Hmem; reflexivity.
    + rewrite bool_decide_eq_false_2; auto.
Qed.

Lemma quit_leaves_every_channel_witness :
  ∃ self', SingleServerIRCBot._on_quit Sample.in_test Sample.conn
             (Sample.event "bot!u@h" "" ["Quit"]) = Ok self'
           ∧ IRCDict.keys (SingleServerIRCBot.channels self')
             = IRCDict.keys (SingleServerIRCBot.channels Sample.in_test)
           ∧ Forall2 (fun ch ch' =>
                        Inv.channel_wf ch' = true
                        ∧ ∀ k, Channel.has_user ch' k
                               = negb (bool_decide
                                         (nm_to_n (source (Sample.event "bot!u@h" ""
                                                             ["Quit"])) = k))
                                 && Channel.has_user ch k)
               (IRCDict.values (SingleServerIRCBot.channels Sample.in_test))
               (IRCDict.values (SingleServerIRCBot.channels self')).
Proof.
  apply (quit_leaves_every_channel Sample.in_test Sample.conn
           (Sample.event "bot!u@h" "" ["Quit"])).
  vm_compute. reflexivity.
Defined.

(** X14.  When the dictionaries of every channel are well-formed, a nick
    change to a nick of another class raises nothing; the bot stays in the
    same channels; a channel without the old nick is left as it is, and in
    a channel with the old nick the new nick is a member, the old one is
    not, and every third nick keeps its membership and status. *)
Theorem nick_renames_in_every_channel (self : SingleServerIRCBot.t)
    (c : Connection) (e : Event) :
  Scenario.all_channels Inv.channel_wf self = true →
  irc_lower (nm_to_n (source e)) ≠ irc_lower (target e) →
  ∃ self', SingleServerIRCBot._on_nick self c e = Ok self'
           ∧ IRCDict.keys (SingleServerIRCBot.channels self')
             = IRCDict.keys (SingleServerIRCBot.channels self)
           ∧ Forall2 (fun ch ch' =>
                        (Channel.has_user ch (nm_to_n (source e)) = false → ch' = ch)
                        ∧ (Channel.has_user ch (nm_to_n (source e)) = true →
                           Channel.has_user ch' (target e) = true)
                        ∧ Channel.has_user ch' (nm_to_n (source e)) = false
                        ∧ ∀ k, k ≠ nm_to_n (source e) → k ≠ target e →
                               Channel.has_user ch' k = Channel.has_user ch k
                               ∧ Channel.is_oper ch' k = Channel.is_oper ch k
                               ∧ Channel.is_voiced ch' k = Channel.is_voiced ch k)
               (IRCDict.values (SingleServerIRCBot.channels self))
               (IRCDict.values (SingleServerIRCBot.channels self')).
Proof.
  intros Hall%all_channels_spec Hne. unfold SingleServerIRCBot._on_nick.
  edestruct (on_values_Forall2 (SingleServerIRCBot.channels self))
    as (chans' & E & Hk & _ & Hv); [|rewrite E; simpl; eauto].
  eapply Forall_impl; [exact Hall|]. intros ch Hwf. simpl.
  destruct (Channel.has_user ch (nm_to_n (source e))) eqn:Hmem.
  - destruct (change_nick_frame ch _ _ Hwf Hmem Hne)
      as (ch' & E & H3 & Ha & _ & _ & Hb & _).
    exists ch'. split; [exact E|]. split; [discriminate|]. auto.
  - exists ch. split; [reflexivity|]. split; [reflexivity|].
    split; [discriminate|]. split; [exact Hmem|]. auto.
Qed.

Lemma nick_renames_in_every_channel_witness :
  ∃ self', SingleServerIRCBot._on_nick Sample.in_test Sample.conn
             (Sample.event "bot!u@h" "robot" []) = Ok self'
           ∧ IRCDict.keys (SingleServerIRCBot.channels self')
             = IRCDict.keys (SingleServerIRCBot.channels Sample.in_test)
           ∧ Forall2 (fun ch ch' =>
                        (Channel.has_user ch
                           (nm_to_n (source (Sample.event "bot!u@h" "robot" [])))
                         = false → ch' = ch)
                        ∧ (Channel.has_user ch
                             (nm_to_n (source (Sample.event "bot!u@h" "robot" [])))
                           = true →
                           Channel.has_user ch'
                             (target (Sample.event "bot!u@h" "robot" [])) = true)
                        ∧ Channel.has_user ch'
                            (nm_to_n (source (Sample.event "bot!u@h" "robot" [])))
                          = false
                        ∧ ∀ k, k ≠ nm_to_n (source (Sample.event "bot!u@h" "robot" []))
                               → k ≠ target (Sample.event "bot!u@h" "robot" []) →
                               Channel.has_user ch' k = Channel.has_user ch k
                               ∧ Channel.is_oper ch' k = Channel.is_oper ch k
                               ∧ Channel.is_voiced ch' k = Channel.is_voiced ch k)
               (IRCDict.values (SingleServerIRCBot.channels Sample.in_test))
               (IRCDict.values (SingleServerIRCBot.channels self')).
Proof.
  apply (nick_renames_in_every_channel Sample.in_test Sample.conn
           (Sample.event "bot!u@h" "robot" []));
    vm_compute; [reflexivity | discriminate].
Defined.

Section ModeFacts.
Implicit Types (ch : Channel.t) (chans : IRCDict.t Channel.t).

Lemma set_mode_userdict ch mode value ch' :
  Channel.set_mode ch mode value = Ok ch' →
  Channel.userdict ch' = Channel.userdict ch.
Proof.
  unfold Channel.set_mode, Channel.identifier.
  destruct (decide (mode = "o")); [|destruct (decide (mode = "v"))].
  - destruct value as [nick|]; simpl; [|discriminate].
    destruct (IRCDict.__setitem__ _ nick 1); simpl; [|discriminate].
    intros [= <-]. reflexivity.
  - destruct value as [nick|]; simpl; [|discriminate].
    destruct (IRCDict.__setitem__ _ nick 1); simpl; [|discriminate].
    intros [= <-]. reflexivity.
  - intros [= <-]. reflexivity.
Qed.

Lemma clear_mode_userdict ch mode value ch' :
  Channel.clear_mode ch mode value = Ok ch' →
  Channel.userdict ch' = Channel.userdict ch.
Proof.
  unfold Channel.clear_mode.
  destruct (Channel.clear_mode_try ch mode value) as [ch1|e] eqn:E.
  - intros [= <-]. revert E. unfold Channel.clear_mode_try, Channel.identifier.
    destruct (decide (mode = "o")); [|destruct (decide (mode = "v"))].
    + destruct value as [nick|]; simpl; [|discriminate].
      destruct (IRCDict.__delitem__ _ nick); simpl; [|discriminate].
      intros [= <-]. reflexivity.
    + destruct value as [nick|]; simpl; [|discriminate].
      destruct (IRCDict.__delitem__ _ nick); simpl; [|discriminate].
      intros [= <-]. reflexivity.
    + destruct (Channel.modes ch !! mode); simpl; [|discriminate].
      intros [= <-]. reflexivity.
  - destruct e; [|discriminate..]. intros [= <-]. reflexivity.
Qed.

Lemma mode_changes_userdict modes ch ch' :
  for_each SingleServerIRCBot.mode_change modes ch = Ok ch' →
  Channel.userdict ch' = Channel.userdict ch.
Proof.
  revert ch. induction modes as [|m modes IH]; intros ch; simpl.
  - intros [= <-]. reflexivity.
  - destruct (SingleServerIRCBot.mode_change ch m) as [ch1|] eqn:E; simpl;
      [|discriminate].
    intros H. rewrite (IH _ H). unfold SingleServerIRCBot.mode_change in E.
    destruct (decide (m.1.1 = "+")).
    + eapply set_mode_userdict, E.
    + eapply clear_mode_userdict, E.
Qed.

(** Replacing a stored value by a related one relates the values. *)
Lemma values_set_Forall2 {V : Type} (R : V → V → Prop) (l : list (string * V))
    (key : string) (x y : V) :
  (∀ z, R z z) → PyDict.get l key = Some x → R x y →
  Forall2 R (PyDict.values l) (PyDict.values (PyDict.set l key y)).
Proof.
  intros Hrefl. unfold PyDict.values.
  induction l as [|[k0 v0] l IH]; simpl; [discriminate|].
  destruct (decide (k0 = key)) as [->|Hne]; simpl.
  - intros [= ->] HR. constructor; [exact HR|].
    apply Forall_Forall2_diag, Forall_forall. auto.
  - intros Hx HR. constructor; auto.
Qed.

(** Changes of modes other than o and v never raise. *)
Lemma flag_changes_succeed (modes : list (string * string * option string)) ch :
  Forall (fun mode => mode.1.2 ≠ "o" ∧ mode.1.2 ≠ "v") modes →
  ∃ ch', for_each SingleServerIRCBot.mode_change modes ch = Ok ch'.
Proof.
  intros Hall. revert ch.
  induction Hall as [|[[sign letter] value] modes [Ho Hv] _ IH]; intros ch.
  - exists ch. reflexivity.
  - simpl in Ho, Hv.
    assert (∃ ch1, SingleServerIRCBot.mode_change ch (sign, letter, value) = Ok ch1)
      as [ch1 E].
    { unfold SingleServerIRCBot.mode_change. simpl.
      destruct (decide (sign = "+")).
      - unfold Channel.set_mode. rewrite !decide_False by assumption. eauto.
      - unfold Channel.clear_mode, Channel.clear_mode_try.
        rewrite !decide_False by assumption.
        destruct (Channel.modes ch !! letter); simpl; eauto. }
    simpl. rewrite E. simpl. apply IH.
Qed.
End ModeFacts.

(** X15.  A mode event whose target is no channel leaves the bot as it
    is.  One whose target is a channel that is not registered raises
    [KeyError], even when it carries no mode change.  One whose target is
    a registered channel and whose changes concern letters other than o
    and v is handled without exception.  And no mode event that is
    handled without exception changes which channels the bot is in or who
    their members are. *)
Theorem mode_event_keeps_members
    (parse_channel_modes : string → list (string * string * option string))
    (is_channel : string → bool)
    (self : SingleServerIRCBot.t) (c : Connection) (e : Event) :
  (is_channel (target e) = false →
   SingleServerIRCBot._on_mode parse_channel_modes is_channel self c e = Ok self)
  ∧ (is_channel (target e) = true →
     IRCDict.has_key (SingleServerIRCBot.channels self) (target e) = false →
     SingleServerIRCBot._on_mode parse_channel_modes is_channel self c e
     = Raise KeyError)
  ∧ (is_channel (target e) = true →
     ∀ chan, Scenario.channel_of self (target e) = Ok chan →
     Forall (fun mode => mode.1.2 ≠ "o" ∧ mode.1.2 ≠ "v")
       (parse_channel_modes (join " " (arguments e))) →
     ∃ self', SingleServerIRCBot._on_mode parse_channel_modes is_channel self c e
              = Ok self')
  ∧ (∀ self',
       SingleServerIRCBot._on_mode parse_channel_modes is_channel self c e
       = Ok self' →
       IRCDict.keys (SingleServerIRCBot.channels self')
       = IRCDict.keys (SingleServerIRCBot.channels self)
       ∧ Forall2 (fun ch ch' => Channel.users ch' = Channel.users ch
                                ∧ Channel.userdict ch' = Channel.userdict ch)
           (IRCDict.values (SingleServerIRCBot.channels self))
           (IRCDict.values (SingleServerIRCBot.channels self'))).
Proof.
  unfold SingleServerIRCBot._on_mode. split; [|split; [|split]].
  - intros ->. reflexivity.
  - intros -> Hreg. rewrite (on_item_unregistered _ _ _ Hreg). reflexivity.
  - intros -> chan Hchan Hflags.
    destruct (flag_changes_succeed _ chan Hflags) as [chan' E].
    destruct (on_item_found _ _ (fun ch => for_each SingleServerIRCBot.mode_change
                                             (parse_channel_modes
                                                (join " " (arguments e))) ch)
                _ _ Hchan E) as (ck & _ & _ & Eitem).
    rewrite Eitem. simpl. eauto.
  - intros self'. destruct (is_channel (target e)).
    + destruct (IRCDict.on_item _ _ _) as [chans|] eqn:E; simpl; [|discriminate].
      intros [= <-]. simpl.
      apply on_item_inv in E as (ck & ch & ch' & Hck & Hch & Hm & ->).
      apply mode_changes_userdict in Hm. unfold IRCDict.keys, IRCDict.values. simpl.
      split.
      * apply keys_set_stored. unfold PyDict.contains. rewrite Hch. reflexivity.
      * apply (values_set_Forall2 _ _ _ ch ch'); [auto | exact Hch|].
        unfold Channel.users. rewrite Hm. auto.
    + intros [= <-]. split; [reflexivity|].
      apply Forall_Forall2_diag, Forall_forall. auto.
Qed.

Lemma mode_event_keeps_members_witness :
  SingleServerIRCBot._on_mode (fun _ => [("+", "o", Some "bot"); ("-", "l", None)])
    (fun t => bool_decide (t = "#test")) Sample.in_test Sample.conn
    (Sample.event "op!u@h" "bot" ["+i"]) = Ok Sample.in_test
  ∧ SingleServerIRCBot._on_mode (fun _ => []) (fun t => bool_decide (t = "#test"))
      Sample.bot Sample.conn (Sample.event "op!u@h" "#test" []) = Raise KeyError
  ∧ (∃ self',
       SingleServerIRCBot._on_mode
         (fun _ => [("+", "l", Some "10"); ("+", "m", None); ("-", "k", None)])
         (fun t => bool_decide (t = "#test")) Sample.in_test Sample.conn
         (Sample.event "op!u@h" "#test" ["+lm-k"; "10"]) = Ok self')
  ∧ (∃ self',
       SingleServerIRCBot._on_mode
         (fun _ => [("+", "o", Some "alice"); ("+", "l", Some "10");
                    ("-", "v", Some "carol"); ("-", "l", None)])
         (fun t => bool_decide (t = "#test")) Sample.in_test Sample.conn
         (Sample.event "op!u@h" "#test" ["+ol-vl"; "alice"; "10"; "carol"])
       = Ok self'
       ∧ IRCDict.keys (SingleServerIRCBot.channels self')
         = IRCDict.keys (SingleServerIRCBot.channels Sample.in_test)
       ∧ Forall2 (fun ch ch' => Channel.users ch' = Channel.users ch
                                ∧ Channel.userdict ch' = Channel.userdict ch)
           (IRCDict.values (SingleServerIRCBot.channels Sample.in_test))
           (IRCDict.values (SingleServerIRCBot.channels self'))).
Proof.
  split; [|split; [|split]].
  - apply (proj1 (mode_event_keeps_members
                    (fun _ => [("+", "o", Some "bot"); ("-", "l", None)])
                    (fun t => bool_decide (t = "#test")) Sample.in_test Sample.conn
                    (Sample.event "op!u@h" "bot" ["+i"]))).
    vm_compute. reflexivity.
  - apply (proj1 (proj2 (mode_event_keeps_members (fun _ => [])
                           (fun t => bool_decide (t = "#test")) Sample.bot Sample.conn
                           (Sample.event "op!u@h" "#test" []))));
      vm_compute; reflexivity.
  - refine (proj1 (proj2 (proj2 (mode_event_keeps_members
                           (fun _ => [("+", "l", Some "10"); ("+", "m", None);
                                      ("-", "k", None)])
                           (fun t => bool_decide (t = "#test"))
                           Sample.in_test Sample.conn
                           (Sample.event "op!u@h" "#test" ["+lm-k"; "10"]))))
             _
             (Sample.value Channel.__init__
                (Scenario.channel_of Sample.in_test "#test")) _ _).
    + vm_compute. reflexivity.
    + vm_compute. reflexivity.
    + repeat constructor; discriminate.
  - eexists. split; [vm_compute; reflexivity|].
    apply (proj2 (proj2 (proj2 (mode_event_keeps_members
                           (fun _ => [("+", "o", Some "alice"); ("+", "l", Some "10");
                                      ("-", "v", Some "carol"); ("-", "l", None)])
                           (fun t => bool_decide (t = "#test"))
                           Sample.in_test Sample.conn
                           (Sample.event "op!u@h" "#test"
                              ["+ol-vl"; "alice"; "10"; "carol"])))) _).
    vm_compute. reflexivity.
Defined.

(** X16.  A kick or part of a nick other than the nickname of the
    connection, on a registered channel with well-formed dictionaries in
    a sound directory, raises nothing; the channel stays registered, the
    nick is no member of it any more, every other nick is a member, an
    operator or voiced exactly if it was before, and the channels of
    other classes are untouched. *)
Theorem other_user_leaves (self : SingleServerIRCBot.t) (c : Connection)
    (e : Event) (nick : string) (chan : Channel.t) :
  Inv.sound (SingleServerIRCBot.channels self) = true →
  Scenario.channel_of self (target e) = Ok chan →
  Inv.channel_wf chan = true →
  nick ≠ get_nickname c →
  let left self' :=
    ∃ chan', Scenario.channel_of self' (target e) = Ok chan'
             ∧ Inv.channel_wf chan' = true
             ∧ (∀ k, Channel.has_user chan' k
                     = negb (bool_decide (nick = k)) && Channel.has_user chan k
                     ∧ Channel.is_oper chan' k
                       = negb (bool_decide (nick = k)) && Channel.is_oper chan k
                     ∧ Channel.is_voiced chan' k
                       = negb (bool_decide (nick = k)) && Channel.is_voiced chan k)
             ∧ ∀ other, irc_lower other ≠ irc_lower (target e) →
                        Scenario.channel_of self' other
                        = Scenario.channel_of self other in
  (arguments e !! 0%nat = Some nick →
   ∃ self', SingleServerIRCBot._on_kick self c e = Ok self' ∧ left self')
  ∧ (nm_to_n (source e) = nick →
     ∃ self', SingleServerIRCBot._on_part self c e = Ok self' ∧ left self').
Proof.
  intros Hs Hchan Hwf Hne left.
  destruct (remove_user_wf chan nick Hwf) as (chan' & Erm & Hwf' & _ & Hin).
  destruct (on_item_found _ _ (fun chan => Channel.remove_user chan nick) _ _
              Hchan Erm) as (ck & Hck & Hget & Eitem).
  assert (left (SingleServerIRCBot.with_channels self
                  {| IRCDict.data :=
                       PyDict.set (IRCDict.data (SingleServerIRCBot.channels self))
                         ck chan';
                     IRCDict.canon_keys :=
                       IRCDict.canon_keys (SingleServerIRCBot.channels self) |}))
    as Hleft.
  { destruct (getitem_on_item _ _ _ _ Eitem) as [(o & o' & Ho & Ho' & Hnew) Hother].
    unfold Scenario.channel_of in Hchan. rewrite Hchan in Ho. injection Ho as <-.
    rewrite Erm in Ho'. injection Ho' as <-.
    exists chan'. unfold Scenario.channel_of. simpl. auto. }
  split.
  - intros Harg. unfold SingleServerIRCBot._on_kick. rewrite Harg. simpl.
    rewrite decide_False by assumption. rewrite Eitem. simpl. eauto.
  - intros <-. unfold SingleServerIRCBot._on_part.
    rewrite decide_False by assumption. rewrite Eitem. simpl. eauto.
Qed.

Lemma other_user_leaves_witness :
  let e := Sample.event "bot!u@h" "#TEST" ["bot"] in
  let conn := {| connected := true; real_nickname := "carol"; calls := [] |} in
  let left self' :=
    ∃ chan', Scenario.channel_of self' (target e) = Ok chan'
             ∧ Inv.channel_wf chan' = true
             ∧ (∀ k, Channel.has_user chan' k
                     = negb (bool_decide ("bot" = k))
                       && Channel.has_user
                            (Sample.value Channel.__init__
                               (Scenario.channel_of Sample.in_test "#test")) k
                     ∧ Channel.is_oper chan' k
                       = negb (bool_decide ("bot" = k))
                         && Channel.is_oper
                              (Sample.value Channel.__init__
                                 (Scenario.channel_of Sample.in_test "#test")) k
                     ∧ Channel.is_voiced chan' k
                       = negb (bool_decide ("bot" = k))
                         && Channel.is_voiced
                              (Sample.value Channel.__init__
                                 (Scenario.channel_of Sample.in_test "#test")) k)
             ∧ ∀ other, irc_lower other ≠ irc_lower (target e) →
                        Scenario.channel_of self' other
                        = Scenario.channel_of Sample.in_test other in
  (arguments e !! 0%nat = Some "bot" →
   ∃ self', SingleServerIRCBot._on_kick Sample.in_test conn e = Ok self' ∧ left self')
  ∧ (nm_to_n (source e) = "bot" →
     ∃ self', SingleServerIRCBot._on_part Sample.in_test conn e = Ok self' ∧ left self').
Proof.
  apply (other_user_leaves Sample.in_test
           {| connected := true; real_nickname := "carol"; calls := [] |}
           (Sample.event "bot!u@h" "#TEST" ["bot"]) "bot"
           (Sample.value Channel.__init__
              (Scenario.channel_of Sample.in_test "#test")));
    vm_compute; [reflexivity | reflexivity | reflexivity | discriminate].
Defined.

(** ** The NAMES reply *)

Section NamesFacts.
Implicit Types (chan : Channel.t) (chans : IRCDict.t Channel.t)
  (token : string) (tokens : list string).

Lemma status_of_cases token :
  Scenario.status_of token = Some "o" ∨ Scenario.status_of token = Some "v"
  ∨ Scenario.status_of token = None.
Proof.
  destruct token as [|[[] [] [] [] [] [] [] []] rest]; simpl; auto.
Qed.

(** The loop body of [_on_namreply] in terms of [status_of] and [nick_of]. *)
Lemma namreply_nick_eq ch chans token :
  SingleServerIRCBot.namreply_nick ch chans token
  = (chans ← match Scenario.status_of token with
             | Some mode =>
                 IRCDict.on_item chans ch
                   (fun chan => Channel.set_mode chan mode
                                  (Some (Scenario.nick_of token)))
             | None => Ok chans
             end;
     IRCDict.on_item chans ch
       (fun chan => Channel.add_user chan (Scenario.nick_of token))).
Proof.
  unfold SingleServerIRCBot.namreply_nick.
  destruct token as [|[[] [] [] [] [] [] [] []] rest]; simpl;
    try reflexivity;
    destruct (IRCDict.on_item chans ch _); reflexivity.
Qed.

Lemma set_same {V : Type} (l : list (string * V)) (key : string) (v : V) :
  PyDict.get l key = Some v → PyDict.set l key v = l.
Proof.
  induction l as [|[k0 v0] l IH]; simpl; [discriminate|].
  destruct (decide (k0 = key)) as [->|Hne].
  - intros [= ->]. reflexivity.
  - intros H. rewrite IH; auto.
Qed.

(** The loop body on the directory is [name_token] on the stored channel. *)
Lemma namreply_nick_stored ch chans token key chan chan' :
  IRCDict.canon_keys chans !! irc_lower ch = Some key →
  PyDict.get (IRCDict.data chans) key = Some chan →
  Scenario.name_token chan token = Ok chan' →
  SingleServerIRCBot.namreply_nick ch chans token
  = Ok {| IRCDict.data := PyDict.set (IRCDict.data chans) key chan';
          IRCDict.canon_keys := IRCDict.canon_keys chans |}.
Proof.
  intros Hkey Hchan. rewrite namreply_nick_eq. unfold Scenario.name_token.
  destruct (Scenario.status_of token) as [mode|].
  - destruct (Channel.set_mode chan mode _) as [chan1|] eqn:E1; simpl;
      [|discriminate].
    intros E2. unfold IRCDict.on_item. rewrite Hkey. simpl. rewrite Hchan. simpl.
    rewrite E1. simpl. rewrite Hkey. simpl.
    rewrite get_set, decide_True by reflexivity. simpl. rewrite E2. simpl.
    rewrite set_set. reflexivity.
  - simpl. intros E2. unfold IRCDict.on_item. rewrite Hkey. simpl.
    rewrite Hchan. simpl. rewrite E2. reflexivity.
Qed.

(** A nick that fits a well-formed dictionary is stored in it or has no
    equivalent there. *)
Lemma fitting_stored_or_absent (d : IRCDict.t Z) (n : string) :
  (∀ k, IRCDict.__contains__ d k = true → irc_lower k = irc_lower n → k = n) →
  IRCDict.__contains__ d n = true ∨ Inv.absent d n = true.
Proof.
  intros Hfit. destruct (IRCDict.__contains__ d n) eqn:Hn; [auto | right].
  apply absent_spec. intros k Hk Heq. rewrite (Hfit k Hk Heq) in Hk. congruence.
Qed.

(** One token, on a channel that its nick fits. *)
Lemma name_token_inv chan token :
  Inv.channel_inv chan = true →
  (∀ k, Channel.has_user chan k = true →
        irc_lower k = irc_lower (Scenario.nick_of token) →
        k = Scenario.nick_of token) →
  ∃ chan', Scenario.name_token chan token = Ok chan'
           ∧ Inv.channel_inv chan' = true
           ∧ Channel.modes chan' = Channel.modes chan
           ∧ (∀ k, Channel.has_user chan' k = true
                   ↔ k = Scenario.nick_of token ∨ Channel.has_user chan k = true)
           ∧ (∀ k, Channel.is_oper chan' k = true
                   ↔ (Scenario.status_of token = Some "o"
                      ∧ k = Scenario.nick_of token)
                     ∨ Channel.is_oper chan k = true)
           ∧ (∀ k, Channel.is_voiced chan' k = true
                   ↔ (Scenario.status_of token = Some "v"
                      ∧ k = Scenario.nick_of token)
                     ∨ Channel.is_voiced chan k = true).
Proof.
  set (n := Scenario.nick_of token).
  unfold Inv.channel_inv. intros [Hwf Hst]%andb_true_iff Hfit.
  apply channel_wf_spec in Hwf as (Hu & Ho & Hv).
  apply status_spec in Hst as [Hso Hsv].
  unfold Channel.has_user, Channel.is_oper, Channel.is_voiced in *.
  destruct (setitem_wf (Channel.userdict chan) n 1 Hu) as (u & Eu & Hwu & Hinu).
  { apply fitting_stored_or_absent. exact Hfit. }
  assert (∀ k, IRCDict.__contains__ u k = true
               ↔ k = n ∨ IRCDict.__contains__ (Channel.userdict chan) k = true)
    as Hinu'.
  { intros k. rewrite Hinu, orb_true_iff, bool_decide_eq_true.
    split; intros [?|?]; auto. }
  assert (∀ d : IRCDict.t Z, Inv.wf d = true →
            (∀ k, IRCDict.__contains__ d k = true →
                  IRCDict.__contains__ (Channel.userdict chan) k = true) →
            ∃ d', IRCDict.__setitem__ d n 1 = Ok d' ∧ Inv.wf d' = true
                  ∧ ∀ k, IRCDict.__contains__ d' k = true
                         ↔ k = n ∨ IRCDict.__contains__ d k = true) as Hstatus.
  { intros d Hwd Hsub.
    destruct (setitem_wf d n 1 Hwd) as (d' & E & Hwd' & Hin).
    { apply fitting_stored_or_absent. intros k Hk. apply Hfit, Hsub, Hk. }
    exists d'. split; [exact E|]. split; [exact Hwd'|]. intros k.
    rewrite Hin, orb_true_iff, bool_decide_eq_true. split; intros [?|?]; auto. }
  unfold Scenario.name_token. fold n.
  destruct (status_of_cases token) as [Hm|[Hm|Hm]]; rewrite Hm.
  - destruct (Hstatus _ Ho Hso) as (o & Eo & Hwo & Hino).
    unfold Channel.set_mode, Channel.add_user.
    rewrite decide_True by reflexivity. simpl. rewrite Eo. simpl. rewrite Eu. simpl.
    eexists. split; [reflexivity|]. simpl. split.
    { apply andb_true_iff. split; [apply channel_wf_spec; simpl; auto|].
      apply status_spec. unfold Channel.has_user, Channel.is_oper, Channel.is_voiced.
      simpl. split; intros k Hk; apply Hinu'.
      - apply Hino in Hk as [?|?]; auto.
      - auto. }
    split; [reflexivity|]. split; [exact Hinu'|]. split.
    + intros k. rewrite Hino. split; intros [?|?]; auto. tauto.
    + intros k. split; [auto|]. intros [[? _]|?]; [discriminate | assumption].
  - destruct (Hstatus _ Hv Hsv) as (v & Ev & Hwv & Hinv).
    unfold Channel.set_mode, Channel.add_user.
    rewrite decide_False by discriminate. rewrite decide_True by reflexivity.
    simpl. rewrite Ev. simpl. rewrite Eu. simpl.
    eexists. split; [reflexivity|]. simpl. split.
    { apply andb_true_iff. split; [apply channel_wf_spec; simpl; auto|].
      apply status_spec. unfold Channel.has_user, Channel.is_oper, Channel.is_voiced.
      simpl. split; intros k Hk; apply Hinu'.
      - auto.
      - apply Hinv in Hk as [?|?]; auto. }
    split; [reflexivity|]. split; [exact Hinu'|]. split.
    + intros k. split; [auto|]. intros [[? _]|?]; [discriminate | assumption].
    + intros k. rewrite Hinv. split; intros [?|?]; auto. tauto.
  - unfold Channel.add_user. simpl. rewrite Eu. simpl.
    eexists. split; [reflexivity|]. simpl. split.
    { apply andb_true_iff. split; [apply channel_wf_spec; simpl; auto|].
      apply status_spec. unfold Channel.has_user, Channel.is_oper, Channel.is_voiced.
      simpl. split; intros k Hk; apply Hinu'; auto. }
    split; [reflexivity|]. split; [exact Hinu'|].
    split; intros k; (split; [auto|]); intros [[? _]|?];
      (discriminate || assumption).
Qed.
End NamesFacts.

Section NamesLoop.
Implicit Types (chan : Channel.t) (chans : IRCDict.t Channel.t)
  (token : string) (tokens : list string).

Lemma fits_spec (d : IRCDict.t Z) (n : string) :
  Scenario.fits d n = true ↔
  ∀ k, IRCDict.__contains__ d k = true → irc_lower k = irc_lower n → k = n.
Proof.
  unfold Scenario.fits, IRCDict.__contains__, IRCDict.keys.
  rewrite forallb_forall. split.
  - intros H k Hk. apply contains_keys, list_elem_of_In, H in Hk.
    apply bool_decide_eq_true in Hk. exact Hk.
  - intros H k Hk. apply bool_decide_eq_true, H, contains_keys, list_elem_of_In, Hk.
Qed.

Lemma names_fit_spec chan tokens :
  Scenario.names_fit chan tokens = true →
  (∀ t, t ∈ tokens → ∀ k, Channel.has_user chan k = true →
        irc_lower k = irc_lower (Scenario.nick_of t) → k = Scenario.nick_of t)
  ∧ (∀ t t', t ∈ tokens → t' ∈ tokens →
       irc_lower (Scenario.nick_of t) = irc_lower (Scenario.nick_of t') →
       Scenario.nick_of t = Scenario.nick_of t').
Proof.
  induction tokens as [|t0 r IH]; simpl.
  - intros _. split; intros; exfalso; eapply not_elem_of_nil; eassumption.
  - intros [[Hfit Hpair]%andb_true_iff Hr]%andb_true_iff.
    destruct (IH Hr) as [IH1 IH2]. clear IH.
    assert (∀ t', t' ∈ r →
              irc_lower (Scenario.nick_of t') = irc_lower (Scenario.nick_of t0) →
              Scenario.nick_of t' = Scenario.nick_of t0) as Hhead.
    { intros t' Ht'. rewrite forallb_forall in Hpair.
      apply list_elem_of_In, Hpair, bool_decide_eq_true in Ht'. exact Ht'. }
    split.
    + intros t [->|Ht]%elem_of_cons; [|auto].
      exact (proj1 (fits_spec _ _) Hfit).
    + intros t t' [->|Ht]%elem_of_cons [->|Ht']%elem_of_cons Heq; auto.
      symmetry. apply Hhead; auto.
Qed.

Lemma elem_of_given mode token tokens k :
  k ∈ Scenario.given mode (token :: tokens)
  ↔ (Scenario.status_of token = Some mode ∧ k = Scenario.nick_of token)
    ∨ k ∈ Scenario.given mode tokens.
Proof.
  unfold Scenario.given. rewrite !list_elem_of_fmap. split.
  - intros (y & -> & [HP Hy]%list_elem_of_filter).
    apply elem_of_cons in Hy as [->|Hy]; [left; auto|].
    right. exists y. split; [reflexivity|]. apply list_elem_of_filter. auto.
  - intros [[HP ->]|(y & -> & [HP Hy]%list_elem_of_filter)].
    + exists token. split; [reflexivity|]. apply list_elem_of_filter.
      split; [exact HP | apply list_elem_of_here].
    + exists y. split; [reflexivity|]. apply list_elem_of_filter.
      split; [exact HP | apply list_elem_of_further, Hy].
Qed.

(** The loop of [_on_namreply] over tokens that fit the channel. *)
Lemma names_loop ch tokens :
  ∀ chans key chan,
    IRCDict.canon_keys chans !! irc_lower ch = Some key →
    PyDict.get (IRCDict.data chans) key = Some chan →
    Inv.channel_inv chan = true →
    (∀ t, t ∈ tokens → ∀ k, Channel.has_user chan k = true →
          irc_lower k = irc_lower (Scenario.nick_of t) → k = Scenario.nick_of t) →
    (∀ t t', t ∈ tokens → t' ∈ tokens →
       irc_lower (Scenario.nick_of t) = irc_lower (Scenario.nick_of t') →
       Scenario.nick_of t = Scenario.nick_of t') →
    ∃ chan',
      for_each (SingleServerIRCBot.namreply_nick ch) tokens chans
      = Ok {| IRCDict.data := PyDict.set (IRCDict.data chans) key chan';
              IRCDict.canon_keys := IRCDict.canon_keys chans |}
      ∧ Inv.channel_inv chan' = true
      ∧ Channel.modes chan' = Channel.modes chan
      ∧ (∀ k, Channel.has_user chan' k = true
              ↔ k ∈ Scenario.nick_of <$> tokens ∨ Channel.has_user chan k = true)
      ∧ (∀ k, Channel.is_oper chan' k = true
              ↔ k ∈ Scenario.given "o" tokens ∨ Channel.is_oper chan k = true)
      ∧ (∀ k, Channel.is_voiced chan' k = true
              ↔ k ∈ Scenario.given "v" tokens ∨ Channel.is_voiced chan k = true).
Proof.
  induction tokens as [|t r IH]; intros chans key chan Hkey Hchan Hinv Hfit Hcomp.
  - exists chan. simpl. rewrite (set_same _ _ _ Hchan).
    split; [destruct chans; reflexivity|]. split; [exact Hinv|].
    split; [reflexivity|].
    unfold Scenario.given. simpl.
    repeat split; intros; try tauto;
      match goal with
      | H : _ ∨ _ |- _ => destruct H as [H|H]; [inversion H | exact H]
      end.
  - destruct (name_token_inv chan t Hinv) as (chan1 & E1 & Hinv1 & Hm1 & Hu1 & Ho1 & Hv1).
    { apply Hfit. apply list_elem_of_here. }
    simpl. rewrite (namreply_nick_stored ch chans t key chan chan1 Hkey Hchan E1).
    simpl.
    destruct (IH {| IRCDict.data := PyDict.set (IRCDict.data chans) key chan1;
                    IRCDict.canon_keys := IRCDict.canon_keys chans |} key chan1)
      as (chan' & E & Hinv' & Hm' & Hu' & Ho' & Hv').
    + exact Hkey.
    + simpl. rewrite get_set, decide_True by reflexivity. reflexivity.
    + exact Hinv1.
    + intros t' Ht' k Hk Heq. apply Hu1 in Hk as [->|Hk].
      * apply Hcomp; [apply list_elem_of_here | apply list_elem_of_further, Ht' | exact Heq].
      * apply Hfit; [apply list_elem_of_further, Ht' | exact Hk | exact Heq].
    + intros t1 t2 H1 H2. apply Hcomp; apply list_elem_of_further; assumption.
    + exists chan'. simpl in E. rewrite set_set in E.
      split; [exact E|]. split; [exact Hinv'|]. split; [congruence|].
      split; [|split].
      * intros k. rewrite Hu', Hu1, ?fmap_cons, elem_of_cons. tauto.
      * intros k. rewrite Ho', Ho1, elem_of_given. tauto.
      * intros k. rewrite Hv', Hv1, elem_of_given. tauto.
Qed.
End NamesLoop.

(** X17.  Take a NAMES reply for a registered channel whose dictionaries
    are well-formed and whose operators and voiced nicks are members, and
    let the nicks of the reply fit: none is a different spelling of a
    member or of another nick of the reply.  Then the handler raises
    nothing, and afterwards the members of the channel are the old members
    and the nicks of the reply, its operators the old ones and the nicks
    marked with @, its voiced nicks the old ones and those marked with +;
    modes are as before, and the channel again is well-formed with
    operators and voiced nicks among the members. *)
Theorem namreply_of_fitting_names (self : SingleServerIRCBot.t) (c : Connection)
    (e : Event) (ch names : string) (chan : Channel.t) :
  arguments e !! 1%nat = Some ch → arguments e !! 2%nat = Some names →
  Scenario.channel_of self ch = Ok chan →
  Inv.channel_inv chan = true →
  Scenario.names_fit chan (split names) = true →
  ∃ self' chan',
    SingleServerIRCBot._on_namreply self c e = Ok self'
    ∧ Scenario.channel_of self' ch = Ok chan'
    ∧ Inv.channel_inv chan' = true
    ∧ Channel.modes chan' = Channel.modes chan
    ∧ (∀ k, Channel.has_user chan' k = true
            ↔ k ∈ Scenario.nick_of <$> split names ∨ Channel.has_user chan k = true)
    ∧ (∀ k, Channel.is_oper chan' k = true
            ↔ k ∈ Scenario.given "o" (split names) ∨ Channel.is_oper chan k = true)
    ∧ (∀ k, Channel.is_voiced chan' k = true
            ↔ k ∈ Scenario.given "v" (split names)
              ∨ Channel.is_voiced chan k = true).
Proof.
  intros Hch Hnames (key & Hkey & Hchan)%getitem_inv Hinv
    [Hfit Hcomp]%names_fit_spec.
  destruct (names_loop ch (split names) _ key chan Hkey Hchan Hinv Hfit Hcomp)
    as (chan' & E & Hres).
  unfold SingleServerIRCBot._on_namreply. rewrite Hch, Hnames. simpl.
  rewrite E. simpl. eexists. exists chan'. split; [reflexivity|].
  split; [|exact Hres].
  unfold Scenario.channel_of, IRCDict.__getitem__. simpl. rewrite Hkey. simpl.
  rewrite get_set, decide_True by reflexivity. reflexivity.
Qed.

Lemma namreply_of_fitting_names_witness :
  ∃ self' chan',
    SingleServerIRCBot._on_namreply Sample.in_test Sample.conn
      (Sample.event "irc.example.org" "bot" ["="; "#test"; "@alice +bob bot carol"])
    = Ok self'
    ∧ Scenario.channel_of self' "#test" = Ok chan'
    ∧ Inv.channel_inv chan' = true
    ∧ Channel.modes chan'
      = Channel.modes (Sample.value Channel.__init__
                         (Scenario.channel_of Sample.in_test "#test"))
    ∧ (∀ k, Channel.has_user chan' k = true
            ↔ k ∈ Scenario.nick_of <$> split "@alice +bob bot carol"
              ∨ Channel.has_user
                  (Sample.value Channel.__init__
                     (Scenario.channel_of Sample.in_test "#test")) k = true)
    ∧ (∀ k, Channel.is_oper chan' k = true
            ↔ k ∈ Scenario.given "o" (split "@alice +bob bot carol")
              ∨ Channel.is_oper
                  (Sample.value Channel.__init__
                     (Scenario.channel_of Sample.in_test "#test")) k = true)
    ∧ (∀ k, Channel.is_voiced chan' k = true
            ↔ k ∈ Scenario.given "v" (split "@alice +bob bot carol")
              ∨ Channel.is_voiced
                  (Sample.value Channel.__init__
                     (Scenario.channel_of Sample.in_test "#test")) k = true).
Proof.
  apply (namreply_of_fitting_names Sample.in_test Sample.conn
           (Sample.event "irc.example.org" "bot"
              ["="; "#test"; "@alice +bob bot carol"])
           "#test" "@alice +bob bot carol"
           (Sample.value Channel.__init__
              (Scenario.channel_of Sample.in_test "#test")));
    vm_compute; reflexivity.
Defined.

(** X18.  Under the conditions of X17 a second, identical NAMES reply is
    handled without exception as well and changes nothing about who is a
    member, an operator or voiced, nor about the modes. *)
Theorem namreply_of_fitting_names_twice (self : SingleServerIRCBot.t)
    (c : Connection) (e : Event) (ch names : string) (chan : Channel.t) :
  arguments e !! 1%nat = Some ch → arguments e !! 2%nat = Some names →
  Scenario.channel_of self ch = Ok chan →
  Inv.channel_inv chan = true →
  Scenario.names_fit chan (split names) = true →
  ∃ once twice chan1 chan2,
    SingleServerIRCBot._on_namreply self c e = Ok once
    ∧ SingleServerIRCBot._on_namreply once c e = Ok twice
    ∧ Scenario.channel_of once ch = Ok chan1
    ∧ Scenario.channel_of twice ch = Ok chan2
    ∧ Channel.modes chan2 = Channel.modes chan1
    ∧ ∀ k, Channel.has_user chan2 k = Channel.has_user chan1 k
           ∧ Channel.is_oper chan2 k = Channel.is_oper chan1 k
           ∧ Channel.is_voiced chan2 k = Channel.is_voiced chan1 k.
Proof.
  intros Hch Hnames (key & Hkey & Hchan)%getitem_inv Hinv
    [Hfit Hcomp]%names_fit_spec.
  destruct (names_loop ch (split names) _ key chan Hkey Hchan Hinv Hfit Hcomp)
    as (chan1 & E1 & Hinv1 & Hm1 & Hu1 & Ho1 & Hv1).
  edestruct (names_loop ch (split names)
               {| IRCDict.data :=
                    PyDict.set (IRCDict.data (SingleServerIRCBot.channels self))
                      key chan1;
                  IRCDict.canon_keys :=
                    IRCDict.canon_keys (SingleServerIRCBot.channels self) |}
               key chan1 Hkey)
    as (chan2 & E2 & Hinv2 & Hm2 & Hu2 & Ho2 & Hv2).
  { simpl. rewrite get_set, decide_True by reflexivity. reflexivity. }
  { exact Hinv1. }
  { intros t Ht k Hk Heq. apply Hu1 in Hk as [Hk|Hk].
    - apply list_elem_of_fmap in Hk as (t' & -> & Ht'). apply Hcomp; assumption.
    - apply Hfit; assumption. }
  { exact Hcomp. }
  simpl in E2. rewrite set_set in E2.
  unfold SingleServerIRCBot._on_namreply. rewrite Hch, Hnames. simpl.
  rewrite E1. simpl. eexists. eexists. exists chan1, chan2.
  split; [reflexivity|]. simpl. rewrite E2. simpl.
  split; [reflexivity|].
  assert (∀ chan0,
    Scenario.channel_of
      (SingleServerIRCBot.with_channels self
         {| IRCDict.data :=
              PyDict.set (IRCDict.data (SingleServerIRCBot.channels self)) key chan0;
            IRCDict.canon_keys :=
              IRCDict.canon_keys (SingleServerIRCBot.channels self) |}) ch
    = Ok chan0) as Hlook.
  { intros chan0. unfold Scenario.channel_of, IRCDict.__getitem__. simpl.
    rewrite Hkey. simpl. rewrite get_set, decide_True by reflexivity. reflexivity. }
  split; [apply Hlook|]. split; [apply Hlook|]. split; [exact Hm2|].
  intros k. repeat split; apply Bool.eq_iff_eq_true.
  - rewrite Hu2, Hu1. tauto.
  - rewrite Ho2, Ho1. tauto.
  - rewrite Hv2, Hv1. tauto.
Qed.

Lemma namreply_of_fitting_names_twice_witness :
  ∃ once twice chan1 chan2,
    SingleServerIRCBot._on_namreply Sample.in_test Sample.conn
      (Sample.event "irc.example.org" "bot" ["="; "#test"; "@alice +bob bot carol"])
    = Ok once
    ∧ SingleServerIRCBot._on_namreply once Sample.conn
        (Sample.event "irc.example.org" "bot" ["="; "#test"; "@alice +bob bot carol"])
      = Ok twice
    ∧ Scenario.channel_of once "#test" = Ok chan1
    ∧ Scenario.channel_of twice "#test" = Ok chan2
    ∧ Channel.modes chan2 = Channel.modes chan1
    ∧ ∀ k, Channel.has_user chan2 k = Channel.has_user chan1 k
           ∧ Channel.is_oper chan2 k = Channel.is_oper chan1 k
           ∧ Channel.is_voiced chan2 k = Channel.is_voiced chan1 k.
Proof.
  apply (namreply_of_fitting_names_twice Sample.in_test Sample.conn
           (Sample.event "irc.example.org" "bot"
              ["="; "#test"; "@alice +bob bot carol"])
           "#test" "@alice +bob bot carol"
           (Sample.value Channel.__init__
              (Scenario.channel_of Sample.in_test "#test")));
    vm_compute; reflexivity.
Defined.

(** ** Reconnecting *)

Lemma jump_server_list (self : SingleServerIRCBot.t) (msg : string)
    (reachable : bool) (s : Server) (l : list Server) :
  SingleServerIRCBot.server_list self = s :: l →
  ∃ self', SingleServerIRCBot.jump_server self msg reachable = Ok self'
           ∧ SingleServerIRCBot.server_list self' = (l ++ [s])%list
           ∧ SingleServerIRCBot.channels self' = SingleServerIRCBot.channels self.
Proof.
  intros Hl. unfold SingleServerIRCBot.jump_server.
  destruct (is_connected (SingleServerIRCBot.connection self)); simpl;
    rewrite Hl; simpl.
  - assert (∃ s', head (l ++ [s])%list = Some s') as [s' Hs']
      by (destruct l; simpl; eauto).
    unfold SingleServerIRCBot._connect. simpl. rewrite Hs'. simpl. eauto.
  - assert (∃ s', head (l ++ [s])%list = Some s') as [s' Hs']
      by (destruct l; simpl; eauto).
    unfold SingleServerIRCBot._connect. simpl. rewrite Hs'. simpl. eauto.
Qed.

(** X19.  With an empty server list [jump_server] raises [IndexError].
    Otherwise any number [n] of calls, up to the length of the list, raise
    nothing and leave the list rotated by [n] places, without losing or
    reordering a server; as many calls as there are servers give the list
    back as it was. *)
Theorem jumps_rotate (self : SingleServerIRCBot.t) (msg : string)
    (outcomes : list bool) :
  (SingleServerIRCBot.server_list self = [] →
   ∀ reachable,
     SingleServerIRCBot.jump_server self msg reachable = Raise IndexError)
  ∧ ((List.length outcomes ≤ List.length (SingleServerIRCBot.server_list self))%nat →
     ∃ self', Scenario.jumps self msg outcomes = Ok self'
              ∧ SingleServerIRCBot.server_list self'
                = (drop (List.length outcomes) (SingleServerIRCBot.server_list self)
                   ++ take (List.length outcomes)
                        (SingleServerIRCBot.server_list self))%list
              ∧ (List.length outcomes
                 = List.length (SingleServerIRCBot.server_list self) →
                 SingleServerIRCBot.server_list self'
                 = SingleServerIRCBot.server_list self)).
Proof.
  split.
  - intros Hl reachable. unfold SingleServerIRCBot.jump_server.
    destruct (is_connected (SingleServerIRCBot.connection self)); simpl;
      rewrite Hl; reflexivity.
  - intros Hlen.
    assert (∃ self', Scenario.jumps self msg outcomes = Ok self'
              ∧ SingleServerIRCBot.server_list self'
                = (drop (List.length outcomes) (SingleServerIRCBot.server_list self)
                   ++ take (List.length outcomes)
                        (SingleServerIRCBot.server_list self))%list)
      as (self' & E & Hl).
    { revert self Hlen. unfold Scenario.jumps.
      induction outcomes as [|o os IH]; intros self Hlen; simpl.
      - exists self. split; [reflexivity|]. rewrite drop_0, app_nil_r. reflexivity.
      - destruct (SingleServerIRCBot.server_list self) as [|s l] eqn:Hl;
          simpl in Hlen; [lia|].
        destruct (jump_server_list self msg o s l Hl) as (self1 & E1 & Hl1 & _).
        rewrite E1. simpl.
        destruct (IH self1) as (self' & E & Hl').
        { rewrite Hl1, length_app. simpl. lia. }
        exists self'. split; [exact E|]. rewrite Hl', Hl1.
        rewrite drop_app_le, take_app_le by lia.
        rewrite <- app_assoc. reflexivity. }
    exists self'. split; [exact E|]. split; [exact Hl|].
    intros Hfull. rewrite Hl, Hfull, drop_all, take_ge by lia. reflexivity.
Qed.

Lemma jumps_rotate_witness :
  (∀ reachable,
     SingleServerIRCBot.jump_server
       (SingleServerIRCBot.__init__ Sample.conn [] "bot" None None None false)
       "Changing servers" reachable = Raise IndexError)
  ∧ ∃ self', Scenario.jumps Sample.bot "Changing servers" [false; false; true] = Ok self'
           ∧ SingleServerIRCBot.server_list self'
             = (drop (List.length [false; false; true])
                  (SingleServerIRCBot.server_list Sample.bot)
                ++ take (List.length [false; false; true])
                     (SingleServerIRCBot.server_list Sample.bot))%list
           ∧ (List.length [false; false; true]
              = List.length (SingleServerIRCBot.server_list Sample.bot) →
              SingleServerIRCBot.server_list self'
              = SingleServerIRCBot.server_list Sample.bot).
Proof.
  split.
  - apply (proj1 (jumps_rotate
                    (SingleServerIRCBot.__init__ Sample.conn [] "bot" None None None
                       false) "Changing servers" [])).
    reflexivity.
  - apply (proj2 (jumps_rotate Sample.bot "Changing servers" [false; false; true])).
    vm_compute. lia.
Defined.

(** X20.  Whatever reconnection interval the bot is built with, the one
    it keeps is positive and not smaller than the one given. *)
Theorem reconnection_interval_is_positive (conn : Connection)
    (servers : list Server) (nickname : string) (username realname : option string)
    (interval : option Z) (use_ssl : bool) :
  0 < SingleServerIRCBot.reconnection_interval
        (SingleServerIRCBot.__init__ conn servers nickname username realname
           interval use_ssl)
  ∧ ∀ i, interval = Some i →
         i ≤ SingleServerIRCBot.reconnection_interval
               (SingleServerIRCBot.__init__ conn servers nickname username realname
                  interval use_ssl).
Proof.
  simpl. destruct interval as [i|].
  - destruct (decide (i = 0)) as [->|Hne].
    + split; [reflexivity|]. intros i [= <-]. simpl. lia.
    + rewrite (bool_decide_eq_false_2 _ Hne). simpl.
      destruct (decide (i < 0)) as [Hneg|Hpos].
      * rewrite (bool_decide_eq_true_2 _ Hneg). split; [reflexivity|].
        intros j [= <-]. lia.
      * rewrite (bool_decide_eq_false_2 _ Hpos). split; [lia|].
        intros j [= <-]. lia.
  - split; [reflexivity | discriminate].
Qed.

Lemma reconnection_interval_is_positive_witness :
  0 < SingleServerIRCBot.reconnection_interval
        (SingleServerIRCBot.__init__ Sample.conn Sample.servers "bot" None None
           (Some (-5)) false)
  ∧ -5 ≤ SingleServerIRCBot.reconnection_interval
           (SingleServerIRCBot.__init__ Sample.conn Sample.servers "bot" None None
              (Some (-5)) false).
Proof.
  pose proof (reconnection_interval_is_positive Sample.conn Sample.servers "bot"
                None None (Some (-5)) false) as [Hpos Hge].
  split; [exact Hpos | apply Hge; reflexivity].
Defined.

(** X21.  The timer callback does nothing while the bot is connected.
    When it is not, and there is a server, the callback raises nothing,
    makes exactly two calls on the connection, first the one that arms
    the timer again with the reconnection interval and then a [connect] to
    the server that heads the rotated list, and leaves the channels
    alone. *)
Theorem connected_checker_rearms (self : SingleServerIRCBot.t) (reachable : bool) :
  (is_connected (SingleServerIRCBot.connection self) = true →
   SingleServerIRCBot._connected_checker self reachable = Ok self)
  ∧ (is_connected (SingleServerIRCBot.connection self) = false →
     ∀ s l s', SingleServerIRCBot.server_list self = s :: l →
               head (l ++ [s])%list = Some s' →
     ∃ self', SingleServerIRCBot._connected_checker self reachable = Ok self'
              ∧ calls (SingleServerIRCBot.connection self')
                = (calls (SingleServerIRCBot.connection self)
                   ++ [ExecuteDelayed (SingleServerIRCBot.reconnection_interval self);
                       Connect (server s') (port s')
                         (SingleServerIRCBot._nickname self) (password s')
                         (SingleServerIRCBot._username self)
                         (SingleServerIRCBot._realname self)
                         (SingleServerIRCBot.use_ssl self)])%list
              ∧ is_connected (SingleServerIRCBot.connection self') = reachable
              ∧ SingleServerIRCBot.server_list self' = (l ++ [s])%list
              ∧ SingleServerIRCBot.channels self'
                = SingleServerIRCBot.channels self).
Proof.
  unfold SingleServerIRCBot._connected_checker. split.
  - intros ->. reflexivity.
  - intros Hc s l s' Hl Hs'. rewrite Hc.
    unfold SingleServerIRCBot.jump_server. simpl. unfold is_connected in Hc.
    rewrite Hc. simpl. rewrite Hl. simpl.
    unfold SingleServerIRCBot._connect. simpl. rewrite Hs'. simpl.
    eexists. split; [reflexivity|]. simpl. rewrite <- app_assoc. auto.
Qed.

Lemma connected_checker_rearms_witness :
  SingleServerIRCBot._connected_checker Sample.bot false = Ok Sample.bot
  ∧ ∃ self',
      SingleServerIRCBot._connected_checker
        (SingleServerIRCBot.disconnect Sample.bot "I'll be back!") true = Ok self'
      ∧ calls (SingleServerIRCBot.connection self')
        = (calls (SingleServerIRCBot.connection
                    (SingleServerIRCBot.disconnect Sample.bot "I'll be back!"))
           ++ [ExecuteDelayed 60;
               Connect "irc.example.net" 6697 "bot" (Some "secret") "bot" "bot"
                 false])%list
      ∧ is_connected (SingleServerIRCBot.connection self') = true
      ∧ SingleServerIRCBot.server_list self'
        = ([ {| server := "irc.example.net"; port := 6697;
                password := Some "secret" |};
             {| server := "irc.example.com"; port := 6667; password := None |} ]
           ++ [ {| server := "irc.example.org"; port := 6667;
                   password := None |} ])%list
      ∧ SingleServerIRCBot.channels self'
        = SingleServerIRCBot.channels
            (SingleServerIRCBot.disconnect Sample.bot "I'll be back!").
Proof.
  split.
  - apply (proj1 (connected_checker_rearms Sample.bot false)). reflexivity.
  - apply (proj2 (connected_checker_rearms
                    (SingleServerIRCBot.disconnect Sample.bot "I'll be back!") true)
             eq_refl
             {| server := "irc.example.org"; port := 6667; password := None |}
             [ {| server := "irc.example.net"; port := 6697;
                  password := Some "secret" |};
               {| server := "irc.example.com"; port := 6667; password := None |} ]
             {| server := "irc.example.net"; port := 6697;
                password := Some "secret" |});
      reflexivity.
Defined.

(** X22.  When every stored key is the canonical key of its class, what
    [get] finds under a key is what [__getitem__] returns for it. *)
Theorem get_agrees_with_getitem {V : Type} (d : IRCDict.t V) (key : string)
    (v : V) :
  Inv.complete d = true →
  IRCDict.get d key None = Some v → IRCDict.__getitem__ d key = Ok v.
Proof.
  intros Hc. pose proof (proj1 (complete_spec d) Hc key) as Hreg.
  unfold IRCDict.get, IRCDict.__getitem__, IRCDict.__contains__, PyDict.contains in *.
  destruct (PyDict.get (IRCDict.data d) key) as [v0|] eqn:Hget; [|discriminate].
  intros [= ->]. rewrite (Hreg eq_refl). simpl. rewrite Hget. reflexivity.
Qed.

Lemma get_agrees_with_getitem_witness :
  IRCDict.__getitem__ (Channel.userdict Sample.alice_oper) "alice" = Ok 1.
Proof.
  apply (get_agrees_with_getitem (Channel.userdict Sample.alice_oper) "alice" 1);
    vm_compute; reflexivity.
Defined.
